(** * STTN data pipeline: temporal reference sampling and mask sequences

    A shallow embedding of [core/dataset.py] (the three dataset classes and
    the module-level [get_ref_index]) together with the properties of the
    frame-index sampler and of the mask sequences that the dataset items
    hand to the tensor pipeline.

    Conventions.
    - Python integers are [Z]; Python lists are [list]; [dict] is [gmap].
    - Python's module [random] keeps one process-wide generator.  It is the
      state of the monad [M]: every [random.*] call reads it and leaves it
      advanced.  An exception aborts the computation and keeps the state
      reached so far.
    - The generator is an infinite tape of raw draws with a cursor.  The
      theorems quantify over every tape, hence over every sequence of
      outcomes the library functions can produce.
    - [core.utils] is imported by the source and absent from it; the
      dataset classes take it as an interface, and its two mask generators
      are also written out from the specification, in module [utils].

    The definitions come first; the properties start at "Properties". *)

From Stdlib Require Import QArith.
From stdpp Require Import base tactics option list numbers sorting strings pretty gmap.
From Stdlib Require Import Lia.

Close Scope Q_scope.
Local Open Scope Z_scope.

(** ** Exceptions and the process-wide random generator *)

Inductive exn :=
| ValueError
| IndexError
| KeyError
| AssertionError
| FileNotFoundError
| InvalidGeometry.

Inductive outcome (A : Type) :=
| Ok (a : A)
| Raise (e : exn).
Arguments Ok {A} a.
Arguments Raise {A} e.

Record rng := Rng { tape : nat → Z; cursor : nat }.

Definition M (A : Type) : Type := rng → outcome A * rng.

Definition ret {A} (a : A) : M A := λ g, (Ok a, g).

Definition bind {A B} (m : M A) (k : A → M B) : M B :=
  λ g, match m g with
       | (Ok a, g') => k a g'
       | (Raise e, g') => (Raise e, g')
       end.

Definition raise {A} (e : exn) : M A := λ g, (Raise e, g).

#[global] Instance M_ret : MRet M := @ret.
#[global] Instance M_bind : MBind M := λ A B k m, bind m k.

(** One raw draw: the cell under the cursor; the cursor moves on. *)
Definition next_raw : M Z :=
  λ g, (Ok (tape g (cursor g)), Rng (tape g) (S (cursor g))).

(** ** Python's [random] module

    The library is not part of the repository; its functions are written
    after their documented behaviour, on top of [next_raw]. *)

Module random.

(** [random.random()]: a float [m / 2^53] with [0 <= m < 2^53]. *)
Definition random : M Q :=
  raw ← next_raw; mret (Qmake (raw `mod` 2 ^ 53) (2 ^ 53)%positive).

(** [random.uniform(a, b)] is [a + (b - a) * random()].  Floats are
    rationals here; for [uniform(0, 1)], the only use in the source, the
    float arithmetic is exact. *)
Definition uniform (a b : Q) : M Q :=
  r ← random; mret (a + (b - a) * r)%Q.

(** [_randbelow(n)] for [n > 0]: an integer in [[0, n)]. *)
Definition randbelow (n : Z) : M Z :=
  raw ← next_raw; mret (if n <=? 0 then 0 else raw `mod` n).

(** [random.randrange(start, stop)]: [ValueError] on an empty range. *)
Definition randrange (start stop : Z) : M Z :=
  let width := stop - start in
  if 0 <? width then r ← randbelow width; mret (start + r)
  else raise ValueError.

(** [random.randint(a, b)] is [randrange(a, b + 1)]. *)
Definition randint (a b : Z) : M Z := randrange a (b + 1).

(** The selection loop of [random.sample]: [k] times, draw a position in
    the pool of elements not selected yet and take the element out. *)
Fixpoint sample_loop {A} (k : nat) (pool : list A) : M (list A) :=
  match k with
  | O => mret []
  | S k' =>
      j ← randbelow (Z.of_nat (length pool));
      match pool !! Z.to_nat j with
      | Some x => rest ← sample_loop k' (delete (Z.to_nat j) pool); mret (x :: rest)
      | None => raise IndexError
      end
  end.

(** [random.sample(population, k)]: [ValueError] unless
    [0 <= k <= len(population)]; otherwise [k] elements chosen without
    replacement, in selection order. *)
Definition sample {A} (population : list A) (k : Z) : M (list A) :=
  let n := Z.of_nat (length population) in
  if (0 <=? k) && (k <=? n) then sample_loop (Z.to_nat k) population
  else raise ValueError.

End random.

(** ** Python built-ins used by the source *)

(** [range(n)] and [range(a, b)] as lists; empty when the bound is not
    above the start. *)
Definition range (n : Z) : list Z := seqZ 0 n.
Definition range2 (a b : Z) : list Z := seqZ a (b - a).

(** [len(l)]. *)
Definition len {A} (l : list A) : Z := Z.of_nat (length l).

(** [l.sort()] on a list of integers: ascending order. *)
Definition sort (l : list Z) : list Z := merge_sort Z.le l.

(** [l[i]]: a negative index counts from the end; [IndexError] outside
    [[-len(l), len(l))]. *)
Definition getitem {A} (l : list A) (i : Z) : M A :=
  let j := if i <? 0 then len l + i else i in
  if j <? 0 then raise IndexError
  else match l !! Z.to_nat j with
       | Some x => mret x
       | None => raise IndexError
       end.

(** [a > b] on floats. *)
Definition Qgtb (a b : Q) : bool := negb (Qle_bool a b).

(** ** The sampler: [get_ref_index] (core/dataset.py, lines 204-211) *)

Definition get_ref_index (length sample_length : Z) : M (list Z) :=
  u ← random.uniform 0 1;
  if Qgtb u (1 # 2) then
    ref_index ← random.sample (range length) sample_length;
    mret (sort ref_index)
  else
    pivot ← random.randint 0 (length - sample_length);
    mret ((λ i, pivot + i) <$> range sample_length).

(** ** More built-ins: strings, dictionaries, loops *)

(** [str(i)] for an integer. *)
Definition str (i : Z) : string := pretty i.

(** [n] times the character 0 (code 48). *)
Definition zeros (n : nat) : string :=
  String.string_of_list_ascii (replicate n (Ascii.ascii_of_nat 48)).

(** [s.zfill(width)]: zeros on the left up to [width]; a leading sign
    ([-], code 45, or [+], code 43) stays in front. *)
Definition zfill (width : Z) (s : string) : string :=
  let pad := Z.to_nat (width - Z.of_nat (String.length s)) in
  match s with
  | String c rest =>
      if (Ascii.eqb c (Ascii.ascii_of_nat 45) || Ascii.eqb c (Ascii.ascii_of_nat 43))%bool
      then String c (zeros pad +:+ rest)
      else zeros pad +:+ s
  | EmptyString => zeros pad
  end.

(** [d[k]] on a dictionary: [KeyError] when the key is missing. *)
Definition dict_getitem {V} (d : gmap string V) (k : string) : M V :=
  match d !! k with
  | Some v => mret v
  | None => raise KeyError
  end.

(** [[x] * n]: [n] references to the same object; empty for [n <= 0]. *)
Definition list_times {A} (x : A) (n : Z) : list A := replicate (Z.to_nat n) x.

(** [assert b]. *)
Definition assert (b : bool) : M unit :=
  if b then mret tt else raise AssertionError.

(** [for x in l: acc = body(acc, x)], the loop variables gathered in
    [acc]. *)
Fixpoint for_in {A S} (l : list A) (body : S → A → M S) (acc : S) : M S :=
  match l with
  | [] => mret acc
  | x :: l' => acc' ← body acc x; for_in l' body acc'
  end.

(** ** Images

    PIL images are kept as the history of the operations that made them;
    only the size is interpreted.  [size] is PIL's [(width, height)]. *)

Record header := Header { h_mode : string; h_width : Z; h_height : Z }.

Inductive Image :=
| Decoded (path : string) (hdr : header)
| Resized (im : Image) (width height : Z)
| Converted (im : Image) (mode : string)
| HFlipped (im : Image)
| VFlipped (im : Image)
| Bitmap (rows : list (list bool)).

Fixpoint size (im : Image) : Z * Z :=
  match im with
  | Decoded _ hdr => (h_width hdr, h_height hdr)
  | Resized _ width height => (width, height)
  | Converted im _ => size im
  | HFlipped im => size im
  | VFlipped im => size im
  | Bitmap rows => (len (hd [] rows), len rows)
  end.

(** [(height, width)] of an image, the order in which the dataset
    classes pass a resolution to the mask generators. *)
Definition resolution (im : Image) : Z * Z := (snd (size im), fst (size im)).

Definition size_eqb (a b : Z * Z) : bool :=
  (fst a =? fst b) && (snd a =? snd b).

(** The image files on disk, by path. *)
Class files := { disk : gmap string header }.

(** [Image.open(path)]. *)
Definition Image_open `{files} (path : string) : M Image :=
  match disk !! path with
  | Some hdr => mret (Decoded path hdr)
  | None => raise FileNotFoundError
  end.

(** [im.resize((a, b))]: PIL reads the pair as [(width, height)]. *)
Definition resize (im : Image) (sz : Z * Z) : Image :=
  Resized im (fst sz) (snd sz).

Definition convert (im : Image) (mode : string) : Image := Converted im mode.

(** [transforms.RandomHorizontalFlip(1.)] and [RandomVerticalFlip(1.)]:
    with probability one the flip is always applied. *)
Definition hflipper (im : Image) : Image := HFlipped im.
Definition vflipper (im : Image) : Image := VFlipped im.

(** ** Dictionaries in insertion order, directories, JSON files *)

(** A Python [dict] built by assignments: [d[k] = v] keeps the place of a
    key that is present and puts a new key last. *)
Record odict (V : Type) := ODict { od_keys : list string; od_map : gmap string V }.
Arguments ODict {V} _ _.
Arguments od_keys {V} _.
Arguments od_map {V} _.

Definition od_empty {V} : odict V := ODict [] ∅.

Definition od_set {V} (d : odict V) (k : string) (v : V) : odict V :=
  ODict (match od_map d !! k with
         | Some _ => od_keys d
         | None => od_keys d ++ [k]
         end)
        (<[k := v]> (od_map d)).

(** [sorted(l)] on a list of strings: ascending in the order of the
    character codes. *)
Definition sorted (l : list string) : list string := merge_sort String.le l.

(** The directories of the file system: for a path, the names
    [os.listdir] returns or the exception it raises. *)
Class dirs := { listing : string → outcome (list string) }.

(** [os.listdir(path)]. *)
Definition os_listdir `{dirs} (path : string) : M (list string) :=
  λ g, (listing path, g).

(** The JSON manifests: for a path, the members of the object that
    [json.load] reads there, in file order, or the exception that
    [open] raises. *)
Class manifests := { manifest : string → outcome (list (string * Z)) }.

(** [json.load(open(path))]: the members are assigned one after the
    other to a new dict. *)
Definition json_load `{manifests} (path : string) : M (odict Z) :=
  λ g, (match manifest path with
        | Ok members => Ok (foldl (λ d kv, od_set d kv.1 kv.2) od_empty members)
        | Raise e => Raise e
        end, g).

Definition starts_with_slash (s : string) : bool :=
  match s with
  | String c _ => Ascii.eqb c (Ascii.ascii_of_nat 47)
  | EmptyString => false
  end.

Fixpoint ends_with_slash (s : string) : bool :=
  match s with
  | EmptyString => false
  | String c EmptyString => Ascii.eqb c (Ascii.ascii_of_nat 47)
  | String _ rest => ends_with_slash rest
  end.

(** [os.path.join(a, b)] on POSIX: an absolute [b] replaces the path; a
    separator (code 47) is added unless the path is empty or ends with
    one. *)
Definition path_join2 (path b : string) : string :=
  if starts_with_slash b then b
  else if (String.eqb path "" || ends_with_slash path)%bool then path +:+ b
  else path +:+ "/" +:+ b.

(** [os.path.join(a, b, c)]. *)
Definition os_path_join (a b c : string) : string := path_join2 (path_join2 a b) c.

(** ** [core.utils]

    The module is imported by [core/dataset.py] and is not among the
    sources.  The dataset classes take its functions as an interface. *)

Class core_utils := {
  create_fixed_rectangular_mask : Z → Z → Z → Z → M (list Image);
  create_random_shape_with_random_motion : Z → Z → Z → M (list Image);
  ZipReader_imread : string → string → M Image;
  GroupRandomHorizontalFlip : list Image → M (list Image)
}.

(** ** [class MUSICDataset] (core/dataset.py, lines 22-77)

    [__getitem__] returns the two lists it hands to [image_transforms]
    and [mask_transforms]; stacking and tensor conversion are outside. *)

Module MUSICDataset.

Record t := {
  root_dir : string;
  ref_frames : Z;
  image_width : Z;
  image_height : Z;
  video_dict : gmap string Z;
  video_ids : list string
}.

Definition image_shape (self : t) : Z * Z := (image_width self, image_height self).

(** The entries of [dataset_args] that [__init__] reads. *)
Record args := {
  arg_root_dir : string;
  arg_sample_length : Z;
  arg_w : Z;
  arg_h : Z
}.

(** [__init__] (lines 23-44) without the transform objects: one dict
    entry per entry of [root_dir/png], holding the number of names in
    that directory; the ids are the sorted keys. *)
Definition __init__ `{dirs} (dataset_args : args) (split : string) : M t :=
  let root_dir := arg_root_dir dataset_args in
  entries ← os_listdir (root_dir +:+ "/png");
  video_dict ← for_in entries (λ video_dict video_id,
    names ← os_listdir (root_dir +:+ "/png/" +:+ video_id);
    mret (od_set video_dict video_id (len names))) od_empty;
  mret {| root_dir := root_dir;
          ref_frames := arg_sample_length dataset_args;
          image_width := arg_w dataset_args;
          image_height := arg_h dataset_args;
          video_dict := od_map video_dict;
          video_ids := sorted (od_keys video_dict) |}.

Definition __len__ (self : t) : Z := len (video_ids self).

Definition get_frame_index (self : t) (length ref_count : Z) : M (list Z) :=
  u ← random.uniform 0 1;
  if Qgtb u (1 # 2) then
    ref_index ← random.sample (range length) ref_count;
    mret (sort ref_index)
  else
    pivot ← random.randint 0 (length - ref_count);
    mret ((λ i, pivot + i) <$> range ref_count).

Definition __getitem__ `{core_utils} `{files} (self : t) (index : Z)
  : M (list Image * list Image) :=
  video_id ← getitem (video_ids self) index;
  n ← dict_getitem (video_dict self) video_id;
  let all_frames := (λ i, zfill 5 (str i) +:+ ".png") <$> range2 1 (n + 1) in
  sampled_idxs ← get_frame_index self (len all_frames) (ref_frames self);
  masks ← create_fixed_rectangular_mask 5 256 256 42;
  frames ← for_in sampled_idxs (λ frames i,
    name ← getitem all_frames i;
    let image_path := root_dir self +:+ "/png/" +:+ video_id +:+ "/" +:+ name in
    image ← Image_open image_path;
    _ ← assert (size_eqb (size image) (image_shape self));
    mret (frames ++ [image])) [];
  u ← random.uniform 0 1;
  let frames := if Qgtb u (1 # 2) then hflipper <$> frames else frames in
  mret (frames, masks).

End MUSICDataset.

(** ** [class AVEDataset] (core/dataset.py, lines 80-150) *)

Module AVEDataset.

Record t := {
  data_root : string;
  mask_dir : string;
  split : string;
  ref_count : Z;
  image_width : Z;
  image_height : Z;
  video_dict : gmap string Z;
  video_ids : list string
}.

Definition image_shape (self : t) : Z * Z := (image_width self, image_height self).

(** The entries of [args] that [__init__] reads. *)
Record args := {
  arg_data_root : string;
  arg_mask_root : string;
  arg_sample_length : Z;
  arg_w : Z;
  arg_h : Z
}.

(** [__init__] (lines 81-106) without the transform objects: the split
    is asserted to be one of three names; one dict entry per entry of
    [data_root/split/image]; the ids are the keys in insertion order. *)
Definition __init__ `{dirs} (args_ : args) (split : string) : M t :=
  _ ← assert (bool_decide (split ∈ ["train"; "val"; "test"]));
  let data_root := arg_data_root args_ in
  entries ← os_listdir (data_root +:+ "/" +:+ split +:+ "/image");
  video_dict ← for_in entries (λ video_dict video_id,
    names ← os_listdir (data_root +:+ "/" +:+ split +:+ "/image/" +:+ video_id);
    mret (od_set video_dict video_id (len names))) od_empty;
  mret {| data_root := data_root;
          mask_dir := arg_mask_root args_;
          split := split;
          ref_count := arg_sample_length args_;
          image_width := arg_w args_;
          image_height := arg_h args_;
          video_dict := od_map video_dict;
          video_ids := od_keys video_dict |}.

Definition __len__ (self : t) : Z := len (video_ids self).

Definition get_ref_index (self : t) (length ref_count : Z) : M (list Z) :=
  u ← random.uniform 0 1;
  if Qgtb u (1 # 2) then
    ref_index ← random.sample (range length) ref_count;
    mret (sort ref_index)
  else
    pivot ← random.randint 0 (length - ref_count);
    mret ((λ i, pivot + i) <$> range ref_count).

(** Lines 115-120: the static mask read from [mask_dir], after the two
    optional flips. *)
Definition load_mask `{files} (self : t) : M Image :=
  r ← random.randrange 0 12000;
  let mask_path := mask_dir self +:+ "/" +:+ zfill 5 (str r) +:+ ".png" in
  im ← Image_open mask_path;
  let mask := convert (resize im (image_height self, image_width self)) "L" in
  u ← random.uniform 0 1;
  let mask := if Qgtb u (1 # 2) then hflipper mask else mask in
  u ← random.uniform 0 1;
  let mask := if Qgtb u (1 # 2) then vflipper mask else mask in
  mret mask.

Definition __getitem__ `{core_utils} `{files} (self : t) (index : Z)
  : M (list Image * list Image) :=
  video_id ← getitem (video_ids self) index;
  n ← dict_getitem (video_dict self) video_id;
  let all_frames := (λ i, zfill 3 (str i) +:+ ".png") <$> range n in
  all_masks ← create_random_shape_with_random_motion
                (len all_frames) (image_height self) (image_width self);
  mask ← load_mask self;
  let all_masks := list_times mask (len all_frames) in
  ref_index ← get_ref_index self (len all_frames) (ref_count self);
  '(frames, masks) ← for_in ref_index (λ '(frames, masks) i,
    name ← getitem all_frames i;
    let image_path :=
      data_root self +:+ "/" +:+ split self +:+ "/image/" +:+ video_id +:+ "/" +:+ name in
    image ← Image_open image_path;
    let image :=
      if negb (size_eqb (size image) (image_shape self))
      then resize image (image_shape self) else image in
    m ← getitem all_masks i;
    mret (frames ++ [image], masks ++ [m])) ([], []);
  frames ←
    (if String.eqb (split self) "train" then
       u ← random.uniform 0 1;
       mret (if Qgtb u (1 # 2) then hflipper <$> frames else frames)
     else mret frames);
  mret (frames, masks).

End AVEDataset.

(** ** [class Dataset] (core/dataset.py, lines 153-201) *)

Module Dataset.

Record t := {
  data_root : string;
  name : string;
  split : string;
  sample_length : Z;
  w : Z;
  h : Z;
  video_dict : gmap string Z;
  video_names : list string
}.

Definition size_ (self : t) : Z * Z := (w self, h self).

(** The entries of [args] that [__init__] and [load_item] read. *)
Record args := {
  arg_data_root : string;
  arg_name : string;
  arg_sample_length : Z;
  arg_w : Z;
  arg_h : Z
}.

(** [__init__] (lines 154-168) without the transform object: the dict is
    the manifest [data_root/name/split.json]; the names are its keys, cut
    to the first 100 when debugging or outside training. *)
Definition __init__ `{manifests} (args_ : args) (split : string) (debug : bool) : M t :=
  video_dict ← json_load
    (os_path_join (arg_data_root args_) (arg_name args_) (split +:+ ".json"));
  let video_names := od_keys video_dict in
  let video_names :=
    if (debug || negb (String.eqb split "train"))%bool
    then take 100 video_names else video_names in
  mret {| data_root := arg_data_root args_;
          name := arg_name args_;
          split := split;
          sample_length := arg_sample_length args_;
          w := arg_w args_;
          h := arg_h args_;
          video_dict := od_map video_dict;
          video_names := video_names |}.

Definition __len__ (self : t) : Z := len (video_names self).

Definition load_item `{core_utils} (self : t) (index : Z)
  : M (list Image * list Image) :=
  video_name ← getitem (video_names self) index;
  n ← dict_getitem (video_dict self) video_name;
  let all_frames := (λ i, zfill 5 (str i) +:+ ".jpg") <$> range n in
  all_masks ← create_random_shape_with_random_motion (len all_frames) (h self) (w self);
  ref_index ← get_ref_index (len all_frames) (sample_length self);
  '(frames, masks) ← for_in ref_index (λ '(frames, masks) idx,
    member ← getitem all_frames idx;
    let zip_path :=
      data_root self +:+ "/" +:+ name self +:+ "/JPEGImages/" +:+ video_name +:+ ".zip" in
    img ← ZipReader_imread zip_path member;
    let img := resize (convert img "RGB") (size_ self) in
    m ← getitem all_masks idx;
    mret (frames ++ [img], masks ++ [m])) ([], []);
  frames ←
    (if String.eqb (split self) "train" then GroupRandomHorizontalFlip frames
     else mret frames);
  mret (frames, masks).

(** [__getitem__] (lines 173-179): any exception of the first attempt is
    caught; the handler formats [self.video_names[index]] for its
    message, then loads item 0 instead. *)
Definition __getitem__ `{core_utils} (self : t) (index : Z)
  : M (list Image * list Image) :=
  λ g, match load_item self index g with
       | (Ok item, g') => (Ok item, g')
       | (Raise _, g') =>
           (_ ← getitem (video_names self) index; load_item self 0) g'
       end.

End Dataset.

(** ** Masks as binary grids

    The spec's data model: a mask is a 2-D binary grid of [height] rows
    and [width] columns, value 1 marking the occluded region. *)

Definition bitmap (height width : Z) (inside : Z → Z → bool) : Image :=
  Bitmap ((λ y, (λ x, inside x y) <$> range width) <$> range height).

Definition mask_rows (im : Image) : list (list bool) :=
  match im with
  | Bitmap rows => rows
  | _ => []
  end.

(** Sum of [f x y] over the occluded cells [(x, y)] of a grid whose first
    row has index [y0] and whose first column has index 0. *)
Fixpoint row_sum (f : Z → Z) (x0 : Z) (row : list bool) : Z :=
  match row with
  | [] => 0
  | b :: row' => (if b then f x0 else 0) + row_sum f (x0 + 1) row'
  end.

Fixpoint grid_sum (f : Z → Z → Z) (y0 : Z) (rows : list (list bool)) : Z :=
  match rows with
  | [] => 0
  | row :: rows' => row_sum (λ x, f x y0) 0 row + grid_sum f (y0 + 1) rows'
  end.

(** Number of occluded cells, and the coverage ratio. *)
Definition occluded (im : Image) : Z := grid_sum (λ _ _, 1) 0 (mask_rows im).

Definition coverage_ratio (im : Image) : Q :=
  (inject_Z (occluded im) / inject_Z (snd (size im) * fst (size im)))%Q.

(** Centroid of the occluded region. *)
Definition centroid (im : Image) : Q * Q :=
  ((inject_Z (grid_sum (λ x _, x) 0 (mask_rows im)) / inject_Z (occluded im))%Q,
   (inject_Z (grid_sum (λ _ y, y) 0 (mask_rows im)) / inject_Z (occluded im))%Q).

(** Squared Euclidean distance of two points. *)
Definition dist2 (p q : Q * Q) : Q :=
  ((fst p - fst q) * (fst p - fst q) + (snd p - snd q) * (snd p - snd q))%Q.

(** ** The generators of [core.utils], from the spec *)

Module utils.

(** A call-local pseudo-random source: a linear congruential sequence
    started from the seed. *)
Definition lcg (x : Z) : Z :=
  (6364136223846793005 * x + 1442695040888963407) `mod` 2 ^ 64.

Definition seeded (seed : Z) : rng :=
  Rng (λ i, Nat.iter (S i) lcg (seed `mod` 2 ^ 64)) 0.

(** Run [m] on a private generator; the process-wide one is left as it
    is. *)
Definition with_local_rng {A} (local : rng) (m : M A) : M A :=
  λ g, (fst (m local), g).

Definition in_rectangle (left top rw rh : Z) (x y : Z) : bool :=
  (left <=? x) && (x <? left + rw) && (top <=? y) && (y <? top + rh).

(** Modelled from the spec: [create_fixed_rectangular_mask], imported from
    [core.utils], is missing.  Section 4.2: [generate(count, height,
    width, seed)] returns [count] masks; the rectangle's position and
    extent are derived from [seed] through a seeded pseudo-random source
    that is not the process-wide stream; the same rectangle is held
    constant across all [count] frames.  Section 7: a non-positive height
    or width is [InvalidGeometry]. *)
Definition create_fixed_rectangular_mask (count height width seed : Z)
  : M (list Image) :=
  if (height <=? 0) || (width <=? 0) then raise InvalidGeometry
  else
    with_local_rng (seeded seed) (
      rh ← random.randint 1 height;
      rw ← random.randint 1 width;
      top ← random.randint 0 (height - rh);
      left ← random.randint 0 (width - rw);
      mret (list_times (bitmap height width (in_rectangle left top rw rh)) count)).

(** The shape state of section 3: centre, radius, orientation, velocity,
    angular velocity. *)
Record shape := Shape {
  cx : Z; cy : Z; radius : Z; orientation : Z; vx : Z; vy : Z; omega : Z
}.

(** The configured values of section 4.3: the radius range in percent of
    [min(height, width)], the largest speed per axis and per frame, the
    largest jitter and angular speed, and the maximum coverage ratio. *)
Record config := Config {
  radius_lo_pct : Z;
  radius_hi_pct : Z;
  max_speed : Z;
  max_jitter : Z;
  max_spin : Z;
  max_coverage : Q
}.

Definition default_config : config :=
  {| radius_lo_pct := 10; radius_hi_pct := 35; max_speed := 3;
     max_jitter := 1; max_spin := 5; max_coverage := 1 # 2 |}.

Definition clamp (lo hi x : Z) : Z := Z.max lo (Z.min hi x).

(** Step 1: the initial shape state. *)
Definition init_shape (cfg : config) (height width : Z) : M shape :=
  let m := Z.min height width in
  x ← random.randint 0 (width - 1);
  y ← random.randint 0 (height - 1);
  r ← random.randint (radius_lo_pct cfg * m / 100) (radius_hi_pct cfg * m / 100);
  vx ← random.randint (- max_speed cfg) (max_speed cfg);
  vy ← random.randint (- max_speed cfg) (max_speed cfg);
  w ← random.randint (- max_spin cfg) (max_spin cfg);
  mret (Shape x y r 0 vx vy w).

(** Step 2: advance the centre by the velocity and the orientation by the
    angular velocity, jitter both velocities within their bounds, and
    clamp the centre so that the shape stays within the frame. *)
Definition move_shape (cfg : config) (height width : Z) (s : shape) : M shape :=
  jx ← random.randint (- max_jitter cfg) (max_jitter cfg);
  jy ← random.randint (- max_jitter cfg) (max_jitter cfg);
  jw ← random.randint (- max_jitter cfg) (max_jitter cfg);
  mret (Shape
          (clamp (radius s) (width - 1 - radius s) (cx s + vx s))
          (clamp (radius s) (height - 1 - radius s) (cy s + vy s))
          (radius s)
          ((orientation s + omega s) `mod` 360)
          (clamp (- max_speed cfg) (max_speed cfg) (vx s + jx))
          (clamp (- max_speed cfg) (max_speed cfg) (vy s + jy))
          (clamp (- max_spin cfg) (max_spin cfg) (omega s + jw))).

(** Step 3: the ellipse-equation test per pixel, for a disc. *)
Definition in_shape (s : shape) (x y : Z) : bool :=
  (x - cx s) * (x - cx s) + (y - cy s) * (y - cy s) <=? radius s * radius s.

Definition rasterize (height width : Z) (s : shape) : Image :=
  bitmap height width (in_shape s).

(** Modelled from the spec: [create_random_shape_with_random_motion],
    imported from [core.utils], is missing.  Section 4.3, steps 1 to 3,
    with a disc as the shape family (the spec leaves the family free) and
    without the optional size variation of step 4; the random draws come
    from the process-wide generator, the call has no other source.
    Section 7: a non-positive height or width is [InvalidGeometry]. *)
Definition generate_moving_shape (cfg : config) (frame_count height width : Z)
  : M (list Image) :=
  if (height <=? 0) || (width <=? 0) then raise InvalidGeometry
  else
    s0 ← init_shape cfg height width;
    '(_, masks) ← for_in (range frame_count) (λ '(s, masks) _,
      s' ← move_shape cfg height width s;
      mret (s', masks ++ [rasterize height width s'])) (s0, []);
    mret masks.

Definition create_random_shape_with_random_motion (video_length imageHeight imageWidth : Z)
  : M (list Image) :=
  generate_moving_shape default_config video_length imageHeight imageWidth.

(** Modelled from the spec: [ZipReader.imread] and
    [GroupRandomHorizontalFlip] of [core.utils] are missing; the spec
    names them only as archive-backed decoding and glue.  A member of an
    archive is decoded like a file at [archive/member]; the group flip
    mirrors all frames together on a draw from the process-wide
    generator. *)
Definition ZipReader_imread `{files} (zip_path member : string) : M Image :=
  Image_open (zip_path +:+ "/" +:+ member).

Definition GroupRandomHorizontalFlip (frames : list Image) : M (list Image) :=
  u ← random.uniform 0 1;
  mret (if Qgtb u (1 # 2) then hflipper <$> frames else frames).

End utils.

(** The interface [core_utils] filled with the generators above. *)
Definition spec_utils `{files} : core_utils := {|
  create_fixed_rectangular_mask := utils.create_fixed_rectangular_mask;
  create_random_shape_with_random_motion := utils.create_random_shape_with_random_motion;
  ZipReader_imread := utils.ZipReader_imread;
  GroupRandomHorizontalFlip := utils.GroupRandomHorizontalFlip
|}.

(** ** Vocabulary of the statements *)

(** The generator after one draw. *)
Definition advance (g : rng) : rng := Rng (tape g) (S (cursor g)).

(** The branch the sampler takes from state [g]: [true] when its first
    draw [random.uniform(0, 1)] is above 0.5 (scattered mode), [false]
    otherwise (contiguous mode). *)
Definition scattered (g : rng) : bool :=
  match random.uniform 0 1 g with
  | (Ok u, _) => Qgtb u (1 # 2)
  | (Raise _, _) => false
  end.

(** Strictly increasing lists of integers. *)
Definition increasing (l : list Z) : Prop := StronglySorted Z.lt l.

(** All indices inside [[0, n)]. *)
Definition within (n : Z) (l : list Z) : Prop := Forall (λ i, 0 ≤ i < n) l.

(** The spec's [FrameIndexSet] for a request [(video_length,
    sample_count)]: exactly [sample_count] distinct integers of
    [[0, video_length)], strictly increasing. *)
Definition index_set (video_length sample_count : Z) (xs : list Z) : Prop :=
  len xs = sample_count ∧ increasing xs ∧ NoDup xs ∧ within video_length xs.

(** Two computations that differ at most in the value they return: from
    every state both return, or both raise the same exception, and they
    leave the same state. *)
Definition same_but_value {A} (m1 m2 : M A) : Prop :=
  ∀ g, match m1 g, m2 g with
       | (Ok _, g1), (Ok _, g2) => g1 = g2
       | (Raise e1, g1), (Raise e2, g2) => e1 = e2 ∧ g1 = g2
       | _, _ => False
       end.

(** Lengths of the two lists of an item, when the request succeeds. *)
Definition item_lengths (r : outcome (list Image * list Image)) : option (Z * Z) :=
  match r with
  | Ok (frames, masks) => Some (len frames, len masks)
  | Raise _ => None
  end.

(** [(height, width)] of every mask of an item, when the request
    succeeds. *)
Definition item_mask_resolutions (r : outcome (list Image * list Image))
  : option (list (Z * Z)) :=
  match r with
  | Ok (_, masks) => Some (resolution <$> masks)
  | Raise _ => None
  end.

(** Sum of [f] over a list of integers. *)
Definition zsum (f : Z → Z) (l : list Z) : Z := foldr (λ i acc, f i + acc) 0 l.

(** The largest radius the moving-shape generator draws for a frame. *)
Definition radius_hi (cfg : utils.config) (height width : Z) : Z :=
  utils.radius_hi_pct cfg * Z.min height width / 100.

(** A configuration the moving-shape generator can run with: a radius
    range of at most 35 percent of the shorter side, so that a disc fits
    into the frame, and bounds that are not negative. *)
Definition valid_config (cfg : utils.config) : Prop :=
  0 ≤ utils.radius_lo_pct cfg ≤ utils.radius_hi_pct cfg
  ∧ utils.radius_hi_pct cfg ≤ 35
  ∧ 0 ≤ utils.max_speed cfg
  ∧ 0 ≤ utils.max_jitter cfg
  ∧ 0 ≤ utils.max_spin cfg.

(** A frame in which the square around the largest disc stays below the
    configured maximum coverage. *)
Definition roomy (cfg : utils.config) (height width : Z) : Prop :=
  (inject_Z ((2 * radius_hi cfg height width + 1) * (2 * radius_hi cfg height width + 1))
   < utils.max_coverage cfg * inject_Z (height * width))%Q.

(** A shape whose disc lies inside the frame. *)
Definition in_frame (height width : Z) (s : utils.shape) : Prop :=
  0 ≤ utils.radius s
  ∧ utils.radius s ≤ utils.cx s ≤ width - 1 - utils.radius s
  ∧ utils.radius s ≤ utils.cy s ≤ height - 1 - utils.radius s.

(** Two shape states one bounded step apart. *)
Definition one_step (bound : Z) (s1 s2 : utils.shape) : Prop :=
  Z.abs (utils.cx s2 - utils.cx s1) ≤ bound
  ∧ Z.abs (utils.cy s2 - utils.cy s1) ≤ bound.

(** The disc of radius [r] around the origin: 1 at the offsets [(d, e)]
    inside it, 0 elsewhere; and the number of its cells in the row at
    vertical offset [e]. *)
Definition disc_weight (r e d : Z) : Z := if d * d + e * e <=? r * r then 1 else 0.

Definition disc_row (r e : Z) : Z := zsum (disc_weight r e) (seqZ (- r) (2 * r + 1)).

(** A shape state within the configured bounds on radius and speed. *)
Definition bounded_shape (cfg : utils.config) (height width : Z) (s : utils.shape) : Prop :=
  0 ≤ utils.radius s ≤ radius_hi cfg height width
  ∧ Z.abs (utils.vx s) ≤ utils.max_speed cfg
  ∧ Z.abs (utils.vy s) ≤ utils.max_speed cfg.

(** The loop invariant of the moving-shape generator after [i] frames:
    the masks are the rasters of [i] states inside the frame, each one
    bounded step after the one before, the last being the current one. *)
Definition shape_trace (cfg : utils.config) (height width : Z) (i : nat)
    (acc : utils.shape * list Image) : Prop :=
  bounded_shape cfg height width acc.1
  ∧ ∃ sts : list utils.shape,
      acc.2 = utils.rasterize height width <$> sts
      ∧ length sts = i
      ∧ Forall (λ t, in_frame height width t ∧ bounded_shape cfg height width t) sts
      ∧ (∀ j t1 t2, sts !! j = Some t1 → sts !! S j = Some t2 →
           one_step (utils.max_speed cfg) t1 t2)
      ∧ (sts = [] ∨ last sts = Some acc.1).

(** The file that holds frame [i] (counted from 0) of a video: MUSIC
    names its frames from [00001.png], AVE from [000.png]; and the mask
    file number [r] of an AVE dataset. *)
Definition music_frame_path (self : MUSICDataset.t) (video_id : string) (i : Z) : string :=
  MUSICDataset.root_dir self +:+ "/png/" +:+ video_id +:+ "/"
    +:+ (zfill 5 (str (1 + i)) +:+ ".png").

Definition ave_frame_path (self : AVEDataset.t) (video_id : string) (i : Z) : string :=
  AVEDataset.data_root self +:+ "/" +:+ AVEDataset.split self +:+ "/image/"
    +:+ video_id +:+ "/" +:+ (zfill 3 (str i) +:+ ".png").

Definition ave_mask_path (self : AVEDataset.t) (r : Z) : string :=
  AVEDataset.mask_dir self +:+ "/" +:+ zfill 5 (str r) +:+ ".png".

(** The image an AVE item keeps for a decoded frame: resized to
    [image_shape] unless it has that size already. *)
Definition ave_fit (self : AVEDataset.t) (im : Image) : Image :=
  if negb (size_eqb (size im) (AVEDataset.image_shape self))
  then resize im (AVEDataset.image_shape self) else im.

(** All frames mirrored, or none. *)
Definition flip_all (flip : bool) (frames : list Image) : list Image :=
  if flip then hflipper <$> frames else frames.

(** A dict whose key list and map agree: the keys are distinct and are
    exactly the keys the map holds. *)
Definition od_wf {V} (d : odict V) : Prop :=
  NoDup (od_keys d) ∧ ∀ k, k ∈ od_keys d ↔ is_Some (od_map d !! k).

(** A generator whose tape starts with the given draws and continues with
    zeros; used to run the code on concrete inputs. *)
Definition tape_of (draws : list Z) : rng := Rng (λ i, nth i draws 0) 0.

(** ** Concrete inputs

    Small datasets on which the code is run in the examples below. *)

(** A MUSIC-style dataset with one video of ten 256x256 frames, asked for
    three reference frames. *)
Definition music_files : files :=
  {| disk := list_to_map ((λ i, ("music/png/vidA/" +:+ zfill 5 (str i) +:+ ".png",
                                 Header "RGB" 256 256)) <$> range2 1 11) |}.

Definition music_set : MUSICDataset.t :=
  {| MUSICDataset.root_dir := "music";
     MUSICDataset.ref_frames := 3;
     MUSICDataset.image_width := 256;
     MUSICDataset.image_height := 256;
     MUSICDataset.video_dict := {[ "vidA" := 10 ]};
     MUSICDataset.video_ids := ["vidA"] |}.

(** An AVE-style dataset with one video of six 6x4 frames (width 6,
    height 4), one mask file, asked for two reference frames. *)
Definition ave_files : files :=
  {| disk := list_to_map (("masks/00007.png", Header "RGB" 100 50)
       :: ((λ i, ("ave/train/image/v/" +:+ zfill 3 (str i) +:+ ".png",
                  Header "RGB" 6 4)) <$> range 6)) |}.

Definition ave_set : AVEDataset.t :=
  {| AVEDataset.data_root := "ave";
     AVEDataset.mask_dir := "masks";
     AVEDataset.split := "train";
     AVEDataset.ref_count := 2;
     AVEDataset.image_width := 6;
     AVEDataset.image_height := 4;
     AVEDataset.video_dict := {[ "v" := 6 ]};
     AVEDataset.video_ids := ["v"] |}.

(** The MUSIC dataset above with a video of two frames only. *)
Definition short_music_set : MUSICDataset.t :=
  {| MUSICDataset.root_dir := "music";
     MUSICDataset.ref_frames := 3;
     MUSICDataset.image_width := 256;
     MUSICDataset.image_height := 256;
     MUSICDataset.video_dict := {[ "vidA" := 2 ]};
     MUSICDataset.video_ids := ["vidA"] |}.

(** A validation dataset of the third class: two videos in archives, of
    five frames and of one frame, asked for two reference frames of
    width 6 and height 4. *)
Definition davis_files : files :=
  {| disk := list_to_map
       (("data/davis/JPEGImages/cows.zip/00000.jpg", Header "RGB" 8 8)
        :: ((λ i, ("data/davis/JPEGImages/bear.zip/" +:+ zfill 5 (str i) +:+ ".jpg",
                   Header "RGB" 8 8)) <$> range 5)) |}.

Definition davis_set : Dataset.t :=
  {| Dataset.data_root := "data";
     Dataset.name := "davis";
     Dataset.split := "val";
     Dataset.sample_length := 2;
     Dataset.w := 6;
     Dataset.h := 4;
     Dataset.video_dict := {[ "bear" := 5; "cows" := 1 ]};
     Dataset.video_names := ["bear"; "cows"] |}.

(** A directory tree given by the names in each directory; any other
    path is not found. *)
Definition dirs_of (tree : gmap string (list string)) : dirs :=
  {| listing := λ path,
       match tree !! path with
       | Some names => Ok names
       | None => Raise FileNotFoundError
       end |}.

(** Two video folders, listed in the order [vidB], [vidA]; a third entry
    of the AVE tree is a plain file. *)
Definition music_dirs : dirs :=
  dirs_of (list_to_map
    [("music/png", ["vidB"; "vidA"]);
     ("music/png/vidA", ["00001.png"; "00002.png"; "00003.png"]);
     ("music/png/vidB", ["00001.png"])]).

Definition ave_dirs : dirs :=
  dirs_of (list_to_map
    [("ave/train/image", ["w"; "v"]);
     ("ave/train/image/v", ["000.png"; "001.png"]);
     ("ave/train/image/w", ["000.png"]);
     ("ave/val/image", ["v"; "notes.txt"]);
     ("ave/val/image/v", ["000.png"])]).

Definition music_args : MUSICDataset.args :=
  {| MUSICDataset.arg_root_dir := "music";
     MUSICDataset.arg_sample_length := 3;
     MUSICDataset.arg_w := 256;
     MUSICDataset.arg_h := 256 |}.

Definition ave_args : AVEDataset.args :=
  {| AVEDataset.arg_data_root := "ave";
     AVEDataset.arg_mask_root := "masks";
     AVEDataset.arg_sample_length := 2;
     AVEDataset.arg_w := 6;
     AVEDataset.arg_h := 4 |}.

(** Manifests given by their members; any other path is not found. *)
Definition manifests_of (files_ : gmap string (list (string * Z))) : manifests :=
  {| manifest := λ path,
       match files_ !! path with
       | Some members => Ok members
       | None => Raise FileNotFoundError
       end |}.

Definition davis_manifests : manifests :=
  manifests_of {[ "data/davis/val.json" := [("bear", 5); ("cows", 1)] ]}.

Definition davis_args : Dataset.args :=
  {| Dataset.arg_data_root := "data";
     Dataset.arg_name := "davis";
     Dataset.arg_sample_length := 2;
     Dataset.arg_w := 6;
     Dataset.arg_h := 4 |}.


(** * Properties *)

(** ** The monad *)

Lemma bind_ok {A B} (m : M A) (k : A → M B) g a g' :
  m g = (Ok a, g') → (m ≫= k) g = k a g'.
Proof. intros E. unfold mbind, M_bind, bind. by rewrite E. Qed.

Lemma bind_raise {A B} (m : M A) (k : A → M B) g e g' :
  m g = (Raise e, g') → (m ≫= k) g = (Raise e, g').
Proof. intros E. unfold mbind, M_bind, bind. by rewrite E. Qed.

Lemma bind_inv {A B} (m : M A) (k : A → M B) g b g2 :
  (m ≫= k) g = (Ok b, g2) → ∃ a g1, m g = (Ok a, g1) ∧ k a g1 = (Ok b, g2).
Proof.
  unfold mbind, M_bind, bind. destruct (m g) as [[a|e] g1]; [eauto | discriminate].
Qed.

(** ** The library functions *)

Lemma uniform_run a b g :
  ∃ u, random.uniform a b g = (Ok u, advance g).
Proof. eexists. reflexivity. Qed.

Lemma randbelow_run n g :
  0 < n → ∃ r, random.randbelow n g = (Ok r, advance g) ∧ 0 ≤ r < n.
Proof.
  intros Hn. exists (tape g (cursor g) `mod` n). split.
  - unfold random.randbelow, mbind, M_bind, bind, next_raw, advance; simpl.
    destruct (Z.leb_spec n 0); [lia | reflexivity].
  - apply Z.mod_pos_bound; lia.
Qed.

Lemma randint_run a b g :
  a ≤ b → ∃ v, random.randint a b g = (Ok v, advance g) ∧ a ≤ v ≤ b.
Proof.
  intros Hab. unfold random.randint, random.randrange.
  destruct (Z.ltb_spec 0 (b + 1 - a)); [| lia].
  destruct (randbelow_run (b + 1 - a) g) as (r & Er & Hr); [lia |].
  exists (a + r). split; [| lia].
  by rewrite (bind_ok _ _ _ _ _ Er).
Qed.

Lemma randint_value a b g :
  a ≤ b →
  random.randint a b g = (Ok (a + tape g (cursor g) `mod` (b + 1 - a)), advance g).
Proof.
  intros Hab. unfold random.randint, random.randrange.
  destruct (Z.ltb_spec 0 (b + 1 - a)); [| lia].
  unfold mbind, M_bind, bind, random.randbelow, next_raw, advance; simpl.
  destruct (Z.leb_spec (b + 1 - a) 0); [lia | reflexivity].
Qed.

Lemma randint_empty a b g :
  b < a → random.randint a b g = (Raise ValueError, g).
Proof.
  intros Hab. unfold random.randint, random.randrange.
  destruct (Z.ltb_spec 0 (b + 1 - a)); [lia | reflexivity].
Qed.

Lemma sample_loop_run {A} (k : nat) : ∀ (pool : list A) g,
  (k ≤ length pool)%nat →
  ∃ xs g', random.sample_loop k pool g = (Ok xs, g')
    ∧ length xs = k
    ∧ (∃ rest, pool ≡ₚ xs ++ rest)
    ∧ tape g' = tape g ∧ cursor g' = (cursor g + k)%nat.
Proof.
  induction k as [|k IH]; intros pool g Hk.
  - exists [], g. repeat split; [by exists pool | lia].
  - destruct (randbelow_run (Z.of_nat (length pool)) g) as (j & Ej & Hj); [simpl in Hk; lia |].
    destruct (lookup_lt_is_Some_2 pool (Z.to_nat j)) as [x Ex]; [lia |].
    destruct (IH (delete (Z.to_nat j) pool) (advance g)) as (xs & g' & E & Hlen & [rest Hp] & Ht & Hc).
    { rewrite length_delete by eauto. lia. }
    exists (x :: xs), g'. simpl. rewrite (bind_ok _ _ _ _ _ Ej), Ex, (bind_ok _ _ _ _ _ E).
    repeat split; simpl.
    + by rewrite Hlen.
    + exists rest. by rewrite (delete_Permutation _ _ _ Ex), Hp.
    + done.
    + rewrite Hc. simpl. lia.
Qed.

Lemma sample_run {A} (population : list A) (k : Z) g :
  0 ≤ k ≤ len population →
  ∃ xs g', random.sample population k g = (Ok xs, g')
    ∧ len xs = k
    ∧ (∃ rest, population ≡ₚ xs ++ rest)
    ∧ tape g' = tape g ∧ cursor g' = (cursor g + Z.to_nat k)%nat.
Proof.
  intros Hk. unfold len in Hk. unfold random.sample.
  destruct (Z.leb_spec 0 k); [| lia]. destruct (Z.leb_spec k (Z.of_nat (length population))); [| lia].
  simpl. destruct (sample_loop_run (Z.to_nat k) population g) as (xs & g' & E & Hlen & Hp & Ht & Hc); [lia |].
  exists xs, g'. repeat split; try done. unfold len. lia.
Qed.

Lemma sample_invalid {A} (population : list A) (k : Z) g :
  k < 0 ∨ len population < k →
  random.sample population k g = (Raise ValueError, g).
Proof.
  intros Hk. unfold len in Hk. unfold random.sample.
  destruct (Z.leb_spec 0 k), (Z.leb_spec k (Z.of_nat (length population))); simpl; (lia || reflexivity).
Qed.

(** ** Sorting and ranges *)

Lemma sort_perm l : sort l ≡ₚ l.
Proof. apply merge_sort_Permutation. Qed.

Lemma sort_sorted l : StronglySorted Z.le (sort l).
Proof. apply (StronglySorted_merge_sort Z.le). Qed.

Lemma sorted_nodup_increasing l :
  StronglySorted Z.le l → NoDup l → increasing l.
Proof.
  unfold increasing. induction l as [|x l IH]; intros Hs Hn; [constructor |].
  apply StronglySorted_cons in Hs as [Hx Hs]. apply NoDup_cons in Hn as [Hnx Hn].
  apply StronglySorted_cons. split; [| auto].
  rewrite Forall_forall in Hx |- *. intros y Hy.
  specialize (Hx y Hy). assert (x ≠ y) by (intros ->; done). lia.
Qed.

Lemma increasing_seqZ m n : increasing (seqZ m n).
Proof.
  unfold increasing. destruct (Z.le_gt_cases n 0) as [Hn|Hn].
  { rewrite seqZ_nil by done. constructor. }
  rewrite <- (Z2Nat.id n) by lia. clear Hn. generalize (Z.to_nat n) as k. clear n.
  intros k. revert m. induction k as [|k IH]; intros m.
  - rewrite seqZ_nil by lia. constructor.
  - rewrite seqZ_cons by lia. apply StronglySorted_cons. split.
    + apply Forall_seqZ. lia.
    + replace (Z.pred (Z.of_nat (S k))) with (Z.of_nat k) by lia. apply IH.
Qed.

Lemma increasing_le l : increasing l → StronglySorted Z.le l.
Proof.
  unfold increasing. induction 1 as [|x l Hs IH Hx]; constructor; [done |].
  eapply Forall_impl; [exact Hx |]. simpl. lia.
Qed.

Lemma len_range n : len (range n) = Z.max 0 n.
Proof. unfold len, range. rewrite length_seqZ. lia. Qed.

Lemma fmap_shift_range pivot n : (λ i, pivot + i) <$> range n = seqZ pivot n.
Proof.
  unfold range. change (λ i, pivot + i) with (Z.add pivot).
  rewrite fmap_add_seqZ. f_equal. lia.
Qed.

Lemma index_set_seqZ l k pivot :
  0 ≤ k → 0 ≤ pivot → pivot + k ≤ l → index_set l k (seqZ pivot k).
Proof.
  intros Hk Hp Hl. repeat split.
  - unfold len. rewrite length_seqZ. lia.
  - apply increasing_seqZ.
  - apply NoDup_seqZ.
  - apply Forall_seqZ. lia.
Qed.

(** A sorted selection from [range l] is an index set. *)
Lemma index_set_sort l k xs rest :
  len xs = k → range l ≡ₚ xs ++ rest → index_set l k (sort xs).
Proof.
  intros Hlen Hp.
  assert (NoDup xs) as Hn.
  { eapply (NoDup_app xs rest). rewrite <- Hp. apply NoDup_seqZ. }
  assert (within l xs) as Hw.
  { unfold within. apply Forall_forall. intros x Hx.
    assert (x ∈ range l) as Hr by (rewrite Hp; apply elem_of_app; by left).
    apply elem_of_seqZ in Hr. lia. }
  repeat split.
  - unfold len in *. by rewrite (Permutation_length (sort_perm xs)).
  - apply sorted_nodup_increasing; [apply sort_sorted | by rewrite sort_perm].
  - by rewrite sort_perm.
  - unfold within. by rewrite sort_perm.
Qed.

(** ** The two branches of the sampler *)

Lemma get_ref_index_scattered l k g :
  scattered g = true →
  get_ref_index l k g =
    (ref_index ← random.sample (range l) k; mret (sort ref_index)) (advance g).
Proof.
  unfold scattered, get_ref_index. destruct (uniform_run 0 1 g) as [u Eu].
  rewrite Eu. intros Hu. rewrite (bind_ok _ _ _ _ _ Eu). by rewrite Hu.
Qed.

Lemma get_ref_index_contiguous l k g :
  scattered g = false →
  get_ref_index l k g =
    (pivot ← random.randint 0 (l - k); mret ((λ i, pivot + i) <$> range k)) (advance g).
Proof.
  unfold scattered, get_ref_index. destruct (uniform_run 0 1 g) as [u Eu].
  rewrite Eu. intros Hu. rewrite (bind_ok _ _ _ _ _ Eu). by rewrite Hu.
Qed.

(** The method copies are the module-level function. *)
Lemma get_frame_index_eq self : MUSICDataset.get_frame_index self = get_ref_index.
Proof. reflexivity. Qed.

Lemma AVE_get_ref_index_eq self : AVEDataset.get_ref_index self = get_ref_index.
Proof. reflexivity. Qed.

(** Whatever the request, an index list that is returned is strictly
    increasing and inside [[0, length)]. *)
Lemma get_ref_index_returns l k g xs g' :
  get_ref_index l k g = (Ok xs, g') → increasing xs ∧ within l xs.
Proof.
  destruct (scattered g) eqn:Hb.
  - rewrite get_ref_index_scattered by done. intros H.
    apply bind_inv in H as (ys & g1 & Es & Er). inversion Er; subst; clear Er.
    destruct (decide (0 ≤ k ≤ len (range l))) as [Hk|Hk].
    + destruct (sample_run (range l) k (advance g) Hk) as (zs & g2 & E & Hlen & [rest Hp] & _).
      rewrite E in Es. inversion Es; subst.
      destruct (index_set_sort l (len ys) ys rest eq_refl Hp) as (_ & ? & _ & ?). done.
    + rewrite sample_invalid in Es by lia. discriminate.
  - rewrite get_ref_index_contiguous by done. intros H.
    apply bind_inv in H as (pivot & g1 & Ep & Er). inversion Er; subst; clear Er.
    destruct (decide (0 ≤ l - k)) as [Hk|Hk].
    + destruct (randint_run 0 (l - k) (advance g) Hk) as (v & E & Hv).
      rewrite E in Ep. inversion Ep; subst. rewrite fmap_shift_range. split.
      * apply increasing_seqZ.
      * apply Forall_seqZ. lia.
    + rewrite randint_empty in Ep by lia. discriminate.
Qed.

Lemma get_ref_index_valid l k g :
  1 ≤ k ≤ l →
  ∃ xs g', get_ref_index l k g = (Ok xs, g') ∧ index_set l k xs.
Proof.
  intros Hk. destruct (scattered g) eqn:Hb.
  - rewrite get_ref_index_scattered by done.
    destruct (sample_run (range l) k (advance g)) as (ys & g1 & E & Hlen & [rest Hp] & _).
    { rewrite len_range. lia. }
    exists (sort ys), g1. split; [by rewrite (bind_ok _ _ _ _ _ E) |].
    by eapply index_set_sort.
  - rewrite get_ref_index_contiguous by done.
    destruct (randint_run 0 (l - k) (advance g)) as (v & E & Hv); [lia |].
    exists (seqZ v k), (advance (advance g)). split.
    + rewrite (bind_ok _ _ _ _ _ E). by rewrite <- fmap_shift_range.
    + apply index_set_seqZ; lia.
Qed.

Lemma get_ref_index_oversized l k g :
  0 ≤ l → l < k → ∃ g', get_ref_index l k g = (Raise ValueError, g').
Proof.
  intros Hl Hk. destruct (scattered g) eqn:Hb.
  - rewrite get_ref_index_scattered by done. exists (advance g).
    apply bind_raise, sample_invalid. rewrite len_range. lia.
  - rewrite get_ref_index_contiguous by done. exists (advance g).
    apply bind_raise, randint_empty. lia.
Qed.

(** ** The sampler's contract *)

(** C1.  For every video length of at least 1 and every sample count
    between 1 and the video length, the sampler returns a strictly
    increasing sequence of exactly [sample_count] distinct integers, each
    in [[0, video_length)]; so do its two method copies
    [MUSICDataset.get_frame_index] and [AVEDataset.get_ref_index]. *)
Theorem sampler_returns_index_set
  (video_length sample_count : Z) (g : rng)
  (music : MUSICDataset.t) (ave : AVEDataset.t) :
  1 ≤ video_length →
  1 ≤ sample_count ≤ video_length →
  (∃ xs g', get_ref_index video_length sample_count g = (Ok xs, g')
            ∧ index_set video_length sample_count xs)
  ∧ (∃ xs g', MUSICDataset.get_frame_index music video_length sample_count g = (Ok xs, g')
              ∧ index_set video_length sample_count xs)
  ∧ (∃ xs g', AVEDataset.get_ref_index ave video_length sample_count g = (Ok xs, g')
              ∧ index_set video_length sample_count xs).
Proof.
  intros _ Hk. rewrite get_frame_index_eq, AVE_get_ref_index_eq.
  repeat split; by apply get_ref_index_valid.
Qed.

Lemma sampler_returns_index_set_witness :
  1 ≤ 10 ∧ 1 ≤ 3 ≤ 10
  ∧ ∃ xs g', get_ref_index 10 3 (tape_of [2 ^ 53 - 1; 4; 7; 7]) = (Ok xs, g')
             ∧ index_set 10 3 xs.
Proof.
  split; [lia |]. split; [lia |].
  apply (sampler_returns_index_set 10 3 (tape_of [2 ^ 53 - 1; 4; 7; 7]) music_set ave_set); lia.
Defined.

(** C6.  In the contiguous branch, for a sample count between 1 and the
    video length, the pivot is the draw of
    [random.randint(0, video_length - sample_count)]: the raw draw reduced
    modulo the [video_length - sample_count + 1] values of the range, one
    residue per pivot.  It lies in the range and the result is the run
    [pivot, ..., pivot + sample_count - 1]; every pivot of the range is
    drawn from some generator state. *)
Theorem contiguous_branch_is_a_run (video_length sample_count : Z) (g : rng) :
  1 ≤ sample_count ≤ video_length →
  (scattered g = false →
   ∃ pivot,
     random.randint 0 (video_length - sample_count) (advance g)
       = (Ok pivot, advance (advance g))
     ∧ pivot = tape g (S (cursor g)) `mod` (video_length - sample_count + 1)
     ∧ 0 ≤ pivot ≤ video_length - sample_count
     ∧ get_ref_index video_length sample_count g
       = (Ok (seqZ pivot sample_count), advance (advance g)))
  ∧ (∀ pivot, 0 ≤ pivot ≤ video_length - sample_count →
       ∃ g0, scattered g0 = false
             ∧ fst (get_ref_index video_length sample_count g0)
               = Ok (seqZ pivot sample_count)).
Proof.
  intros Hk. split.
  - intros Hb.
    pose proof (randint_value 0 (video_length - sample_count) (advance g) ltac:(lia)) as E.
    replace (video_length - sample_count + 1 - 0)
      with (video_length - sample_count + 1) in E by lia.
    rewrite Z.add_0_l in E. simpl cursor in E. simpl tape in E.
    pose proof (Z.mod_pos_bound (tape g (S (cursor g)))
                  (video_length - sample_count + 1) ltac:(lia)) as Hv.
    eexists. split; [exact E |]. split; [reflexivity |]. split; [lia |].
    rewrite get_ref_index_contiguous by done.
    rewrite (bind_ok _ _ _ _ _ E). by rewrite <- fmap_shift_range.
  - intros pivot Hp. exists (tape_of [0; pivot]). split; [reflexivity |].
    rewrite get_ref_index_contiguous by reflexivity.
    rewrite (bind_ok _ _ _ _ _
               (randint_value 0 (video_length - sample_count)
                  (advance (tape_of [0; pivot])) ltac:(lia))).
    simpl. rewrite Z.mod_small by lia. by rewrite <- fmap_shift_range.
Qed.

Lemma contiguous_branch_is_a_run_witness :
  1 ≤ 3 ≤ 10 ∧ scattered (tape_of [0; 4]) = false
  ∧ ∃ pivot,
      random.randint 0 (10 - 3) (advance (tape_of [0; 4]))
        = (Ok pivot, advance (advance (tape_of [0; 4])))
      ∧ pivot = tape (tape_of [0; 4]) (S (cursor (tape_of [0; 4]))) `mod` (10 - 3 + 1)
      ∧ 0 ≤ pivot ≤ 10 - 3
      ∧ get_ref_index 10 3 (tape_of [0; 4])
        = (Ok (seqZ pivot 3), advance (advance (tape_of [0; 4]))).
Proof.
  split; [lia |]. split; [reflexivity |].
  apply (contiguous_branch_is_a_run 10 3 (tape_of [0; 4])); [lia | reflexivity].
Defined.

(** C7.  When the sample count equals the video length the call succeeds
    in both branches and returns the full list [0, ..., video_length - 1];
    in the contiguous branch the pivot is 0. *)
Theorem full_length_sample (video_length : Z) (g : rng) :
  1 ≤ video_length →
  (∃ g', get_ref_index video_length video_length g = (Ok (range video_length), g'))
  ∧ (scattered g = false →
     random.randint 0 (video_length - video_length) (advance g)
       = (Ok 0, advance (advance g))).
Proof.
  intros Hl. split.
  - destruct (scattered g) eqn:Hb.
    + rewrite get_ref_index_scattered by done.
      destruct (sample_run (range video_length) video_length (advance g))
        as (ys & g1 & E & Hlen & [rest Hp] & _).
      { rewrite len_range. lia. }
      exists g1. rewrite (bind_ok _ _ _ _ _ E).
      assert (rest = []) as ->.
      { apply Permutation_length in Hp. rewrite length_app in Hp.
        pose proof (len_range video_length) as Hr. unfold len in *.
        destruct rest; [done | simpl in Hp; lia]. }
      rewrite app_nil_r in Hp.
      assert (sort ys = range video_length) as ->; [| reflexivity].
      apply (StronglySorted_unique Z.le).
      * apply sort_sorted.
      * apply increasing_le, increasing_seqZ.
      * by rewrite sort_perm.
    + destruct (get_ref_index_valid video_length video_length g) as (xs & g' & E & _); [lia |].
      rewrite get_ref_index_contiguous in E |- * by done.
      destruct (randint_run 0 (video_length - video_length) (advance g)) as (v & Ev & Hv); [lia |].
      exists (advance (advance g)). rewrite (bind_ok _ _ _ _ _ Ev). simpl.
      replace v with 0 by lia. do 2 f_equal. rewrite fmap_shift_range. done.
  - intros _.
    destruct (randint_run 0 (video_length - video_length) (advance g)) as (v & Ev & Hv); [lia |].
    rewrite Ev. do 2 f_equal. lia.
Qed.

Lemma full_length_sample_witness :
  1 ≤ 5
  ∧ (∃ g', get_ref_index 5 5 (tape_of [2 ^ 53 - 1; 3; 3; 0; 1; 0]) = (Ok (range 5), g'))
  ∧ scattered (tape_of [0; 9]) = false
  ∧ random.randint 0 (5 - 5) (advance (tape_of [0; 9]))
    = (Ok 0, advance (advance (tape_of [0; 9]))).
Proof.
  split; [lia |]. split.
  - apply (full_length_sample 5 (tape_of [2 ^ 53 - 1; 3; 3; 0; 1; 0])). lia.
  - split; [reflexivity |].
    apply (full_length_sample 5 (tape_of [0; 9])); [lia | reflexivity].
Defined.




(** C9 as stated fails: with a negative count the contiguous branch
    raises nothing and returns the empty list. *)
Lemma negative_count_contiguous_returns :
  scattered (tape_of [0; 3]) = false
  ∧ fst (get_ref_index 5 (-1) (tape_of [0; 3])) = Ok []
  ∧ ¬ ∃ e, fst (get_ref_index 5 (-1) (tape_of [0; 3])) = Raise e.
Proof.
  split; [reflexivity |]. split; [reflexivity |].
  intros [e He]. vm_compute in He. discriminate.
Qed.

(** C9, amended.  For a length of at least 0: a count above the length
    raises [ValueError] in either branch; a negative count raises
    [ValueError] in the scattered branch and returns the empty list in
    the contiguous branch; in no case does a returned list hold an index
    outside [[0, length)]. *)
Theorem get_ref_index_out_of_range (length ref_count : Z) (g : rng) :
  0 ≤ length →
  (length < ref_count →
   ∃ g', get_ref_index length ref_count g = (Raise ValueError, g'))
  ∧ (ref_count < 0 → scattered g = true →
     get_ref_index length ref_count g = (Raise ValueError, advance g))
  ∧ (ref_count < 0 → scattered g = false →
     get_ref_index length ref_count g = (Ok [], advance (advance g)))
  ∧ (∀ xs g', get_ref_index length ref_count g = (Ok xs, g') → within length xs).
Proof.
  intros Hl. split; [| split; [| split]].
  - by apply get_ref_index_oversized.
  - intros Hk Hb. rewrite get_ref_index_scattered by done.
    apply bind_raise, sample_invalid. lia.
  - intros Hk Hb. rewrite get_ref_index_contiguous by done.
    destruct (randint_run 0 (length - ref_count) (advance g)) as (v & E & _); [lia |].
    rewrite (bind_ok _ _ _ _ _ E). unfold range. by rewrite seqZ_nil by lia.
  - intros xs g' E. by apply get_ref_index_returns in E as [_ ?].
Qed.

Lemma get_ref_index_out_of_range_witness :
  0 ≤ 5
  ∧ (5 < 6 ∧ ∃ g', get_ref_index 5 6 (tape_of [0; 3]) = (Raise ValueError, g'))
  ∧ (-1 < 0 ∧ scattered (tape_of [2 ^ 53 - 1]) = true
     ∧ get_ref_index 5 (-1) (tape_of [2 ^ 53 - 1])
       = (Raise ValueError, advance (tape_of [2 ^ 53 - 1])))
  ∧ (scattered (tape_of [0; 3]) = false
     ∧ get_ref_index 5 (-1) (tape_of [0; 3])
       = (Ok [], advance (advance (tape_of [0; 3]))))
  ∧ (get_ref_index 5 2 (tape_of [0; 3]) = (Ok [3; 4], advance (advance (tape_of [0; 3])))
     ∧ within 5 [3; 4]).
Proof.
  split; [lia |]. split; [| split; [| split]].
  - split; [lia |]. apply (get_ref_index_out_of_range 5 6 (tape_of [0; 3])); lia.
  - split; [lia |]. split; [reflexivity |].
    apply (get_ref_index_out_of_range 5 (-1) (tape_of [2 ^ 53 - 1])); [lia | lia | reflexivity].
  - split; [reflexivity |].
    apply (get_ref_index_out_of_range 5 (-1) (tape_of [0; 3])); [lia | lia | reflexivity].
  - split; [reflexivity |].
    apply (proj2 (proj2 (proj2 (get_ref_index_out_of_range 5 2 (tape_of [0; 3]) ltac:(lia))))
             [3; 4] (advance (advance (tape_of [0; 3])))).
    reflexivity.
Defined.

(** ** The process-wide generator *)

Lemma get_ref_index_state l k g :
  ∃ n, snd (get_ref_index l k g) = Rng (tape g) (cursor g + S n).
Proof.
  destruct (scattered g) eqn:Hb.
  - rewrite get_ref_index_scattered by done.
    destruct (decide (0 ≤ k ≤ len (range l))) as [Hk|Hk].
    + destruct (sample_run (range l) k (advance g) Hk) as (ys & [t c] & E & _ & _ & Ht & Hc).
      rewrite (bind_ok _ _ _ _ _ E). simpl in *. subst. exists (Z.to_nat k).
      f_equal. lia.
    + rewrite (bind_raise _ _ _ _ _ (sample_invalid (range l) k (advance g) ltac:(lia))).
      exists 0%nat. unfold advance. simpl. f_equal. lia.
  - rewrite get_ref_index_contiguous by done.
    destruct (decide (0 ≤ l - k)) as [Hk|Hk].
    + destruct (randint_run 0 (l - k) (advance g) Hk) as (v & E & _).
      rewrite (bind_ok _ _ _ _ _ E). exists 1%nat. unfold advance. simpl. f_equal. lia.
    + rewrite (bind_raise _ _ _ _ _ (randint_empty 0 (l - k) (advance g) ltac:(lia))).
      exists 0%nat. unfold advance. simpl. f_equal. lia.
Qed.

(** C8 as stated fails: a call leaves the process-wide generator in
    another state, and the same request answers differently after an
    earlier call than it does without it. *)
Lemma sampler_calls_interfere :
  snd (get_ref_index 10 3 (tape_of [0; 4; 0; 7])) ≠ tape_of [0; 4; 0; 7]
  ∧ fst (get_ref_index 10 3 (tape_of [0; 4; 0; 7])) = Ok [4; 5; 6]
  ∧ fst (get_ref_index 10 3 (snd (get_ref_index 10 3 (tape_of [0; 4; 0; 7])))) = Ok [7; 8; 9].
Proof.
  split; [| split; reflexivity].
  intros H. apply (f_equal cursor) in H. vm_compute in H. discriminate.
Qed.

(** C8, amended.  Every call of the sampler, and of its two method
    copies, draws from the one process-wide generator: it keeps the tape
    and leaves the cursor strictly further, whether it returns or
    raises. *)
Theorem sampler_advances_shared_generator
  (length sample_length : Z) (g : rng)
  (music : MUSICDataset.t) (ave : AVEDataset.t) :
  let after (m : M (list Z)) := snd (m g) in
  (tape (after (get_ref_index length sample_length)) = tape g
   ∧ (cursor g < cursor (after (get_ref_index length sample_length)))%nat)
  ∧ (tape (after (MUSICDataset.get_frame_index music length sample_length)) = tape g
     ∧ (cursor g < cursor (after (MUSICDataset.get_frame_index music length sample_length)))%nat)
  ∧ (tape (after (AVEDataset.get_ref_index ave length sample_length)) = tape g
     ∧ (cursor g < cursor (after (AVEDataset.get_ref_index ave length sample_length)))%nat).
Proof.
  intros after. unfold after. rewrite get_frame_index_eq, AVE_get_ref_index_eq.
  destruct (get_ref_index_state length sample_length g) as [n ->]. simpl.
  repeat split; lia.
Qed.

(** ** Loops and indexing *)

Lemma for_in_inv {A S} (P : S → Prop) (body : S → A → M S) (l : list A) :
  ∀ acc g r g',
    P acc →
    (∀ s x g1 s' g2, P s → x ∈ l → body s x g1 = (Ok s', g2) → P s') →
    for_in l body acc g = (Ok r, g') → P r.
Proof.
  induction l as [|x l IH]; intros acc g r g' Hacc Hbody E; simpl in E.
  - by inversion E; subst.
  - apply bind_inv in E as (s1 & g1 & E1 & E2).
    eapply IH; [| | exact E2].
    + eapply Hbody; [exact Hacc | by left | exact E1].
    + intros s y ga s' gb Hs Hy. eapply Hbody; [done | by right].
Qed.

Lemma getitem_inv {A} (l : list A) (i : Z) g x g' :
  getitem l i g = (Ok x, g') → x ∈ l ∧ g' = g.
Proof.
  unfold getitem. destruct (_ <? 0); [discriminate |].
  destruct (l !! _) as [y|] eqn:E; [| discriminate].
  intros H. inversion H; subst. split; [by eapply list_elem_of_lookup_2 | done].
Qed.

Lemma list_times_elem {A} (x y : A) n : y ∈ list_times x n → y = x.
Proof. unfold list_times. by intros ?%elem_of_replicate_inv. Qed.


(** ** Dataset items *)

Lemma bind_cong {A B} (m : M A) (k k' : A → M B) g :
  (∀ a g1, k a g1 = k' a g1) → (m ≫= k) g = (m ≫= k') g.
Proof.
  intros H. unfold mbind, M_bind, bind. destruct (m g) as [[a|e] g1]; [apply H | done].
Qed.

Lemma bind_same_but_value {A B} (m1 m2 : M A) (k : M B) g :
  same_but_value m1 m2 → (m1 ≫= λ _, k) g = (m2 ≫= λ _, k) g.
Proof.
  intros H. specialize (H g). unfold mbind, M_bind, bind.
  destruct (m1 g) as [[a1|e1] g1], (m2 g) as [[a2|e2] g2]; try done.
  - by subst.
  - by destruct H as [-> ->].
Qed.

(** The masks gathered by the loop of [AVEDataset.__getitem__] are as
    many as the frames and all are the static mask. *)
Lemma ave_loop_masks `{files} (self : AVEDataset.t) (video_id : string)
    (all_frames : list string) (mask : Image) (n : Z) (ref_index : list Z) (g : rng)
    (frames masks : list Image) (g' : rng) :
  for_in ref_index (λ '(frames, masks) i,
    name ← getitem all_frames i;
    let image_path :=
      AVEDataset.data_root self +:+ "/" +:+ AVEDataset.split self +:+ "/image/"
        +:+ video_id +:+ "/" +:+ name in
    image ← Image_open image_path;
    let image :=
      if negb (size_eqb (size image) (AVEDataset.image_shape self))
      then resize image (AVEDataset.image_shape self) else image in
    m ← getitem (list_times mask n) i;
    mret (frames ++ [image], masks ++ [m])) ([], []) g = (Ok (frames, masks), g') →
  masks = replicate (length frames) mask.
Proof.
  intros E.
  apply (for_in_inv (λ s : list Image * list Image, s.2 = replicate (length s.1) mask))
    in E; [done | done |].
  intros [fs ms] i g1 [fs' ms'] g2 Hs _ Eb. simpl in *.
  apply bind_inv in Eb as (name & ga & _ & Eb).
  apply bind_inv in Eb as (image & gb & _ & Eb).
  apply bind_inv in Eb as (m & gc & Em & Eb).
  inversion Eb; subst; clear Eb.
  apply getitem_inv in Em as [Hm _]. apply list_times_elem in Hm as ->.
  rewrite length_app. simpl. rewrite replicate_add. done.
Qed.

Lemma ave_getitem_generator_irrelevant (U U' : core_utils) (F : files)
    (self : AVEDataset.t) (index : Z) (g : rng) :
  (∀ n h w, same_but_value
              (@create_random_shape_with_random_motion U n h w)
              (@create_random_shape_with_random_motion U' n h w)) →
  @AVEDataset.__getitem__ U F self index g = @AVEDataset.__getitem__ U' F self index g.
Proof.
  intros HU. unfold AVEDataset.__getitem__.
  apply bind_cong. intros video_id g1. apply bind_cong. intros n g2. cbv zeta.
  apply (bind_same_but_value _ _ _ g2 (HU _ _ _)).
Qed.

Lemma fst_ok_inv {A} (m : M A) g a : fst (m g) = Ok a → ∃ g', m g = (Ok a, g').
Proof. destruct (m g) as [r g']. simpl. intros ->. by exists g'. Qed.

(** C10.  In [AVEDataset.__getitem__] the masks made by
    [create_random_shape_with_random_motion] are dropped: the returned
    mask list consists of one static mask, the image read from [mask_dir]
    after its optional flips, once per frame, so all masks are identical;
    and a generator that returns other masks gives the same item. *)
Theorem ave_masks_are_one_static_mask (U : core_utils) (F : files)
    (self : AVEDataset.t) (index : Z) (g : rng)
    (frames masks : list Image) :
  fst (AVEDataset.__getitem__ self index g) = Ok (frames, masks) →
  (∃ mask g1,
      fst (AVEDataset.load_mask self g1) = Ok mask
      ∧ masks = replicate (length frames) mask)
  ∧ (∀ U' : core_utils,
       (∀ n h w, same_but_value
                   (@create_random_shape_with_random_motion U n h w)
                   (@create_random_shape_with_random_motion U' n h w)) →
       fst (@AVEDataset.__getitem__ U' F self index g) = Ok (frames, masks)).
Proof.
  intros E0. split.
  - apply fst_ok_inv in E0 as [g' E].
    unfold AVEDataset.__getitem__ in E.
    apply bind_inv in E as (video_id & g1 & _ & E).
    apply bind_inv in E as (n & g2 & _ & E). cbv zeta in E.
    apply bind_inv in E as (moving & g3 & _ & E).
    apply bind_inv in E as (mask & g4 & Emask & E).
    apply bind_inv in E as (ref_index & g5 & _ & E).
    apply bind_inv in E as ([fs ms] & g6 & Eloop & E).
    apply bind_inv in E as (fs' & g7 & Eflip & E).
    inversion E; subst; clear E.
    exists mask, g3. split; [by rewrite Emask |].
    apply ave_loop_masks in Eloop. rewrite Eloop. f_equal.
    destruct (String.eqb _ _).
    + apply bind_inv in Eflip as (u & g8 & _ & Eflip). inversion Eflip; subst.
      destruct (Qgtb _ _); [by rewrite length_fmap | done].
    + by inversion Eflip.
  - intros U' HU. rewrite <- E0. f_equal. symmetry. by apply ave_getitem_generator_irrelevant.
Qed.

Lemma ave_masks_are_one_static_mask_witness :
  let g := tape_of (replicate 24 0 ++ [7; 0; 2 ^ 53 - 1; 0; 3]) in
  let mask :=
    VFlipped (Converted (Resized (Decoded "masks/00007.png" (Header "RGB" 100 50)) 4 6) "L") in
  let frames :=
    [Decoded "ave/train/image/v/003.png" (Header "RGB" 6 4);
     Decoded "ave/train/image/v/004.png" (Header "RGB" 6 4)] in
  fst (@AVEDataset.__getitem__ (@spec_utils ave_files) ave_files ave_set 0 g)
    = Ok (frames, [mask; mask])
  ∧ ∃ mask' g1,
      fst (@AVEDataset.load_mask ave_files ave_set g1) = Ok mask'
      ∧ [mask; mask] = replicate (length frames) mask'.
Proof.
  intros g mask frames.
  assert (fst (@AVEDataset.__getitem__ (@spec_utils ave_files) ave_files ave_set 0 g)
          = Ok (frames, [mask; mask])) as E by (vm_compute; reflexivity).
  split; [exact E |].
  exact (proj1 (ave_masks_are_one_static_mask (@spec_utils ave_files) ave_files ave_set 0 g
                  frames [mask; mask] E)).
Defined.

(** ** The fixed-region generator *)

Lemma size_bitmap height width inside :
  0 < height → 0 ≤ width → size (bitmap height width inside) = (width, height).
Proof.
  intros Hh Hw. unfold bitmap, size, range. f_equal.
  - rewrite (seqZ_cons 0 height) by lia. rewrite fmap_cons. unfold hd, len.
    rewrite length_fmap, length_seqZ. lia.
  - unfold len. rewrite length_fmap, length_seqZ. lia.
Qed.

Lemma fixed_mask_run count height width seed g :
  0 < height → 0 < width →
  ∃ mask, utils.create_fixed_rectangular_mask count height width seed g
            = (Ok (list_times mask count), g)
          ∧ size mask = (width, height).
Proof.
  intros Hh Hw. unfold utils.create_fixed_rectangular_mask.
  destruct (Z.leb_spec height 0); [lia |]. destruct (Z.leb_spec width 0); [lia |]. simpl.
  unfold utils.with_local_rng.
  destruct (randint_run 1 height (utils.seeded seed)) as (rh & E1 & H1); [lia |].
  destruct (randint_run 1 width (advance (utils.seeded seed))) as (rw & E2 & H2); [lia |].
  destruct (randint_run 0 (height - rh) (advance (advance (utils.seeded seed))))
    as (top & E3 & H3); [lia |].
  destruct (randint_run 0 (width - rw) (advance (advance (advance (utils.seeded seed)))))
    as (left & E4 & H4); [lia |].
  exists (bitmap height width (utils.in_rectangle left top rw rh)). split.
  - rewrite (bind_ok _ _ _ _ _ E1), (bind_ok _ _ _ _ _ E2), (bind_ok _ _ _ _ _ E3),
      (bind_ok _ _ _ _ _ E4). reflexivity.
  - apply size_bitmap; lia.
Qed.


(** ** Mask sequences handed to the tensor pipeline *)



(** In [MUSICDataset.__getitem__] the masks are what the call
    [create_fixed_rectangular_mask(5, 256, 256, 42)] returned, whatever
    the sample count and the frame size of the dataset. *)
Lemma music_item_masks (U : core_utils) (F : files) (self : MUSICDataset.t)
    (index : Z) (g : rng) (frames masks : list Image) :
  fst (MUSICDataset.__getitem__ self index g) = Ok (frames, masks) →
  ∃ g1, fst (create_fixed_rectangular_mask 5 256 256 42 g1) = Ok masks.
Proof.
  intros E0. apply fst_ok_inv in E0 as [g' E]. unfold MUSICDataset.__getitem__ in E.
  apply bind_inv in E as (video_id & g1 & _ & E).
  apply bind_inv in E as (n & g2 & _ & E). cbv zeta in E.
  apply bind_inv in E as (idxs & g3 & _ & E).
  apply bind_inv in E as (ms & g4 & Em & E).
  apply bind_inv in E as (fs & g5 & _ & E).
  apply bind_inv in E as (u & g6 & _ & E).
  inversion E; subst. exists g3. by rewrite Em.
Qed.

(** Under the generator of the spec, every item of a MUSIC dataset
    carries 5 masks of 256 x 256, whatever [ref_frames] and the frame
    size are. *)
Lemma music_item_masks_fixed (F : files) (self : MUSICDataset.t)
    (index : Z) (g : rng) (frames masks : list Image) :
  fst (@MUSICDataset.__getitem__ spec_utils F self index g) = Ok (frames, masks) →
  len masks = 5 ∧ Forall (λ m, resolution m = (256, 256)) masks.
Proof.
  intros E. apply music_item_masks in E as [g1 E].
  change (fst (utils.create_fixed_rectangular_mask 5 256 256 42 g1) = Ok masks) in E.
  destruct (fixed_mask_run 5 256 256 42 g1) as (mask & Em & Hsize); [lia | lia |].
  rewrite Em in E. simpl in E. inversion E; subst. split; [reflexivity |].
  apply Forall_forall. intros m ->%list_times_elem. unfold resolution. by rewrite Hsize.
Qed.

(** The static mask of an AVE item is resized with the pair
    [(image_height, image_width)], which PIL reads as (width, height):
    its height is [image_width] and its width is [image_height]. *)
Lemma ave_mask_resolution (F : files) (self : AVEDataset.t) (g : rng) (mask : Image) :
  fst (AVEDataset.load_mask self g) = Ok mask →
  resolution mask = (AVEDataset.image_width self, AVEDataset.image_height self).
Proof.
  intros E0. apply fst_ok_inv in E0 as [g' E]. unfold AVEDataset.load_mask in E.
  apply bind_inv in E as (r & g1 & _ & E). cbv zeta in E.
  apply bind_inv in E as (im & g2 & _ & E).
  apply bind_inv in E as (u1 & g3 & _ & E).
  apply bind_inv in E as (u2 & g4 & _ & E).
  inversion E; subst. by repeat destruct (Qgtb _ _).
Qed.

Lemma get_ref_index_len l k g xs g' :
  get_ref_index l k g = (Ok xs, g') → len xs = Z.max 0 k.
Proof.
  destruct (scattered g) eqn:Hb.
  - rewrite get_ref_index_scattered by done. intros H.
    apply bind_inv in H as (ys & g1 & Es & Er). inversion Er; subst; clear Er.
    destruct (decide (0 ≤ k ≤ len (range l))) as [Hk|Hk].
    + destruct (sample_run (range l) k (advance g) Hk) as (zs & g2 & E & Hlen & _).
      rewrite E in Es. inversion Es; subst. unfold len in *.
      rewrite (Permutation_length (sort_perm ys)). lia.
    + rewrite sample_invalid in Es by lia. discriminate.
  - rewrite get_ref_index_contiguous by done. intros H.
    apply bind_inv in H as (pivot & g1 & Ep & Er). inversion Er; subst; clear Er.
    rewrite fmap_shift_range. unfold len. rewrite length_seqZ. lia.
Qed.

Lemma for_in_inv_count {A S} (P : nat → S → Prop) (body : S → A → M S) (l : list A) :
  (∀ i s x g1 s' g2, P i s → x ∈ l → body s x g1 = (Ok s', g2) → P (Datatypes.S i) s') →
  ∀ k acc g r g',
    P k acc → for_in l body acc g = (Ok r, g') → P (k + length l)%nat r.
Proof.
  induction l as [|x l IH]; intros Hbody k acc g r g' Hacc E; simpl in E.
  - inversion E; subst. by rewrite Nat.add_0_r.
  - apply bind_inv in E as (s1 & g1 & E1 & E2). simpl length.
    replace (k + Datatypes.S (length l))%nat with (Datatypes.S k + length l)%nat by lia.
    eapply IH; [| | exact E2].
    + intros i s y ga s' gb Hs Hy. eapply Hbody; [done | by right].
    + eapply Hbody; [exact Hacc | by left | exact E1].
Qed.

(** [Dataset.load_item] does hand over one mask per sampled index, each
    taken from the generated sequence: with a generator that returns masks
    of the requested resolution, the masks of an item are
    [max(0, sample_length)] many and have the resolution [(h, w)]. *)
Lemma load_item_masks (U : core_utils) (self : Dataset.t) (index : Z) (g : rng)
    (frames masks : list Image) :
  (∀ n h w g0 ms g1,
     create_random_shape_with_random_motion n h w g0 = (Ok ms, g1) →
     Forall (λ m, resolution m = (h, w)) ms) →
  fst (Dataset.load_item self index g) = Ok (frames, masks) →
  len masks = Z.max 0 (Dataset.sample_length self)
  ∧ Forall (λ m, resolution m = (Dataset.h self, Dataset.w self)) masks.
Proof.
  intros Hgen E0. apply fst_ok_inv in E0 as [g' E]. unfold Dataset.load_item in E.
  apply bind_inv in E as (video_name & g1 & _ & E).
  apply bind_inv in E as (n & g2 & _ & E). cbv zeta in E.
  apply bind_inv in E as (all_masks & g3 & Egen & E).
  apply bind_inv in E as (ref_index & g4 & Eidx & E).
  apply bind_inv in E as ([fs ms] & g5 & Eloop & E).
  apply bind_inv in E as (fs' & g6 & _ & E).
  inversion E; subst; clear E.
  apply Hgen in Egen. apply get_ref_index_len in Eidx.
  apply (for_in_inv_count
           (λ i (s : list Image * list Image),
              length s.2 = i
              ∧ Forall (λ m, resolution m = (Dataset.h self, Dataset.w self)) s.2))
    with (k := 0%nat) in Eloop.
  - simpl in Eloop. destruct Eloop as [Hlen Hres]. split; [| done].
    unfold len in *. lia.
  - intros i [fs0 ms0] idx ga [fs1 ms1] gb [Hlen Hres] _ Eb. simpl in *.
    apply bind_inv in Eb as (member & gc & _ & Eb).
    apply bind_inv in Eb as (img & gd & _ & Eb).
    apply bind_inv in Eb as (m & ge & Em & Eb).
    inversion Eb; subst; clear Eb. apply getitem_inv in Em as [Hm _].
    split.
    + rewrite length_app. simpl. lia.
    + apply Forall_app. split; [done |]. apply Forall_cons. split; [| constructor].
      rewrite Forall_forall in Egen. by apply Egen.
  - by split.
Qed.

(** C3, at two inputs.  A MUSIC dataset asked for 3 reference frames
    hands over 3 frames and 5 masks; an AVE dataset of frame height 4 and
    width 6 hands over masks of height 6 and width 4. *)
Theorem item_masks_mismatch :
  (MUSICDataset.ref_frames music_set = 3
   ∧ item_lengths
       (fst (@MUSICDataset.__getitem__ (@spec_utils music_files) music_files
               music_set 0 (tape_of [0; 4; 0])))
     = Some (3, 5))
  ∧ ((AVEDataset.image_height ave_set, AVEDataset.image_width ave_set) = (4, 6)
     ∧ item_mask_resolutions
         (fst (@AVEDataset.__getitem__ (@spec_utils ave_files) ave_files ave_set 0
                 (tape_of (replicate 24 0 ++ [7; 0; 2 ^ 53 - 1; 0; 3]))))
       = Some [(6, 4); (6, 4)]).
Proof.
  split; split; reflexivity.
Qed.


(** ** Sums over grids *)

Lemma zsum_app f l1 l2 : zsum f (l1 ++ l2) = zsum f l1 + zsum f l2.
Proof. induction l1 as [|x l1 IH]; simpl; [done | rewrite IH; lia]. Qed.

Lemma zsum_ext f g l : (∀ x, x ∈ l → f x = g x) → zsum f l = zsum g l.
Proof.
  induction l as [|x l IH]; intros H; simpl; [done |].
  rewrite (H x) by (by left). rewrite IH; [done |]. intros y Hy. apply H. by right.
Qed.

Lemma zsum_zero f l : (∀ x, x ∈ l → f x = 0) → zsum f l = 0.
Proof.
  intros H. rewrite (zsum_ext f (λ _, 0) l H). clear H.
  induction l as [|x l IH]; simpl; [done | by rewrite IH].
Qed.

Lemma zsum_fmap f (h : Z → Z) l : zsum f (h <$> l) = zsum (λ x, f (h x)) l.
Proof. induction l as [|x l IH]; simpl; [done | f_equal; exact IH]. Qed.

Lemma zsum_nonneg f l : (∀ x, x ∈ l → 0 ≤ f x) → 0 ≤ zsum f l.
Proof.
  induction l as [|x l IH]; intros H; simpl; [lia |].
  assert (0 ≤ f x) by (apply H; by left).
  assert (0 ≤ zsum f l) by (apply IH; intros y Hy; apply H; by right). lia.
Qed.

Lemma zsum_ge_elem f l x :
  (∀ y, y ∈ l → 0 ≤ f y) → x ∈ l → f x ≤ zsum f l.
Proof.
  induction l as [|y l IH]; intros H Hx; [by apply elem_of_nil in Hx |].
  simpl. apply elem_of_cons in Hx as [->|Hx].
  - assert (0 ≤ zsum f l) by (apply zsum_nonneg; intros z Hz; apply H; by right). lia.
  - assert (0 ≤ f y) by (apply H; by left).
    assert (f x ≤ zsum f l) by (apply IH; [intros z Hz; apply H; by right | done]). lia.
Qed.

Lemma zsum_le_bound f l b :
  (∀ x, x ∈ l → f x ≤ b) → 0 ≤ b → zsum f l ≤ Z.of_nat (length l) * b.
Proof.
  induction l as [|x l IH]; intros H Hb; simpl length; simpl zsum; [lia |].
  assert (f x ≤ b) by (apply H; by left).
  assert (zsum f l ≤ Z.of_nat (length l) * b) by (apply IH; [intros y Hy; apply H; by right | done]).
  lia.
Qed.

Lemma zsum_scale c f l : zsum (λ x, c * f x) l = c * zsum f l.
Proof. induction l as [|x l IH]; simpl; [lia | rewrite IH; lia]. Qed.

Lemma zsum_plus f g l : zsum (λ x, f x + g x) l = zsum f l + zsum g l.
Proof. induction l as [|x l IH]; simpl; [lia | rewrite IH; lia]. Qed.

(** A sum over the columns [0 .. n-1] of a function of the offset from
    [c] that vanishes beyond distance [r]: only the window around [c]
    counts. *)
Lemma zsum_window (wt : Z → Z) (c r n : Z) :
  0 ≤ r → r ≤ c ≤ n - 1 - r →
  (∀ d, r < Z.abs d → wt d = 0) →
  zsum (λ x, wt (x - c)) (seqZ 0 n) = zsum wt (seqZ (- r) (2 * r + 1)).
Proof.
  intros Hr Hc Hz.
  replace n with ((c - r) + ((2 * r + 1) + (n - 1 - r - c))) by lia.
  rewrite seqZ_app by lia. rewrite seqZ_app by lia.
  rewrite !zsum_app.
  rewrite (zsum_zero _ (seqZ 0 (c - r))).
  2:{ intros x Hx%elem_of_seqZ. apply Hz. lia. }
  rewrite (zsum_zero _ (seqZ (0 + (c - r) + (2 * r + 1)) _)).
  2:{ intros x Hx%elem_of_seqZ. apply Hz. lia. }
  replace (0 + (c - r)) with (c + - r) by lia.
  rewrite <- (fmap_add_seqZ c (- r)). rewrite zsum_fmap.
  rewrite Z.add_0_l, Z.add_0_r. apply zsum_ext. intros x _. f_equal. lia.
Qed.

(** Over a symmetric window the first moment of an even weight is 0. *)
Lemma zsum_symmetric (wt : Z → Z) (r : nat) :
  (∀ d, wt (- d) = wt d) →
  zsum (λ d, d * wt d) (seqZ (- Z.of_nat r) (2 * Z.of_nat r + 1)) = 0.
Proof.
  intros Heven. induction r as [|r IH].
  - reflexivity.
  - replace (2 * Z.of_nat (S r) + 1) with (1 + ((2 * Z.of_nat r + 1) + 1)) by lia.
    rewrite seqZ_app by lia. rewrite seqZ_app by lia. rewrite !zsum_app.
    replace (- Z.of_nat (S r) + 1) with (- Z.of_nat r) by lia.
    rewrite IH.
    replace (- Z.of_nat r + (2 * Z.of_nat r + 1)) with (Z.of_nat (S r)) by lia.
    change (seqZ (- Z.of_nat (S r)) 1) with [- Z.of_nat (S r)].
    change (seqZ (Z.of_nat (S r)) 1) with [Z.of_nat (S r)].
    simpl zsum. rewrite Heven. lia.
Qed.

Lemma row_sum_fmap (f : Z → Z) (inside : Z → bool) (n : nat) : ∀ x0,
  row_sum f x0 (inside <$> seqZ x0 (Z.of_nat n))
  = zsum (λ x, if inside x then f x else 0) (seqZ x0 (Z.of_nat n)).
Proof.
  induction n as [|n IH]; intros x0.
  - reflexivity.
  - rewrite seqZ_cons by lia. replace (Z.pred (Z.of_nat (S n))) with (Z.of_nat n) by lia.
    rewrite fmap_cons. simpl. f_equal. replace (x0 + 1) with (Z.succ x0) by lia. apply IH.
Qed.

Lemma grid_sum_fmap (f : Z → Z → Z) (inside : Z → Z → bool) (width : Z) (n : nat) : ∀ y0,
  0 ≤ width →
  grid_sum f y0 ((λ y, (λ x, inside x y) <$> range width) <$> seqZ y0 (Z.of_nat n))
  = zsum (λ y, zsum (λ x, if inside x y then f x y else 0) (seqZ 0 width))
      (seqZ y0 (Z.of_nat n)).
Proof.
  intros y0 Hw. revert y0. induction n as [|n IH]; intros y0.
  - reflexivity.
  - rewrite seqZ_cons by lia. replace (Z.pred (Z.of_nat (S n))) with (Z.of_nat n) by lia.
    rewrite fmap_cons. simpl. f_equal.
    + unfold range. rewrite <- (Z2Nat.id width) by lia. apply row_sum_fmap.
    + replace (y0 + 1) with (Z.succ y0) by lia. apply IH.
Qed.

Lemma grid_sum_bitmap (f : Z → Z → Z) (inside : Z → Z → bool) (height width : Z) :
  0 ≤ height → 0 ≤ width →
  grid_sum f 0 (mask_rows (bitmap height width inside))
  = zsum (λ y, zsum (λ x, if inside x y then f x y else 0) (seqZ 0 width)) (seqZ 0 height).
Proof.
  intros Hh Hw. unfold bitmap, mask_rows, range.
  rewrite <- (Z2Nat.id height) by lia. by apply grid_sum_fmap.
Qed.

(** ** The disc *)

Lemma disc_weight_range r e d : 0 ≤ disc_weight r e d ≤ 1.
Proof. unfold disc_weight. destruct (_ <=? _); lia. Qed.

Lemma disc_weight_far_d r e d : 0 ≤ r → r < Z.abs d → disc_weight r e d = 0.
Proof.
  intros Hr Hd. unfold disc_weight. destruct (Z.leb_spec (d * d + e * e) (r * r)); [| done].
  nia.
Qed.

Lemma disc_weight_far_e r e d : 0 ≤ r → r < Z.abs e → disc_weight r e d = 0.
Proof.
  intros Hr Hd. unfold disc_weight. destruct (Z.leb_spec (d * d + e * e) (r * r)); [| done].
  nia.
Qed.

Lemma disc_weight_even_d r e d : disc_weight r e (- d) = disc_weight r e d.
Proof. unfold disc_weight. by replace (- d * - d) with (d * d) by lia. Qed.

Lemma disc_row_even r e : disc_row r (- e) = disc_row r e.
Proof.
  unfold disc_row. apply zsum_ext. intros d _. unfold disc_weight.
  by replace (- e * - e) with (e * e) by lia.
Qed.

Lemma disc_row_far r e : 0 ≤ r → r < Z.abs e → disc_row r e = 0.
Proof. intros Hr He. apply zsum_zero. intros d _. by apply disc_weight_far_e. Qed.

Lemma disc_row_range r e : 0 ≤ r → 0 ≤ disc_row r e ≤ 2 * r + 1.
Proof.
  intros Hr. unfold disc_row. split.
  - apply zsum_nonneg. intros d _. apply disc_weight_range.
  - pose proof (zsum_le_bound (disc_weight r e) (seqZ (- r) (2 * r + 1)) 1) as H.
    rewrite length_seqZ in H. rewrite Z2Nat.id in H by lia.
    assert (∀ d, d ∈ seqZ (- r) (2 * r + 1) → disc_weight r e d ≤ 1) as Hb.
    { intros d _. apply disc_weight_range. }
    specialize (H Hb ltac:(lia)). lia.
Qed.

Lemma disc_row_centre r : 0 ≤ r → 1 ≤ disc_row r 0.
Proof.
  intros Hr. unfold disc_row.
  assert (disc_weight r 0 0 = 1) as H1.
  { unfold disc_weight. destruct (Z.leb_spec (0 * 0 + 0 * 0) (r * r)); [done | nia]. }
  assert (disc_weight r 0 0 ≤ zsum (disc_weight r 0) (seqZ (- r) (2 * r + 1))); [| lia].
  apply zsum_ge_elem.
  - intros d _. apply disc_weight_range.
  - apply elem_of_seqZ. lia.
Qed.

Lemma disc_row_first_moment r e :
  0 ≤ r → zsum (λ d, d * disc_weight r e d) (seqZ (- r) (2 * r + 1)) = 0.
Proof.
  intros Hr. rewrite <- (Z2Nat.id r) by lia.
  apply (zsum_symmetric (disc_weight (Z.of_nat (Z.to_nat r)) e)).
  intros d. apply disc_weight_even_d.
Qed.

Lemma disc_first_moment r :
  0 ≤ r → zsum (λ e, e * disc_row r e) (seqZ (- r) (2 * r + 1)) = 0.
Proof.
  intros Hr. rewrite <- (Z2Nat.id r) by lia.
  apply (zsum_symmetric (disc_row (Z.of_nat (Z.to_nat r)))).
  intros e. apply disc_row_even.
Qed.

(** The cells of the rasterized shape are those of the disc moved to the
    centre. *)
Lemma in_shape_weight s x y :
  (if utils.in_shape s x y then 1 else 0)
  = disc_weight (utils.radius s) (y - utils.cy s) (x - utils.cx s).
Proof. reflexivity. Qed.

(** ** A rasterized shape inside the frame *)

Section raster.
Context (height width : Z) (s : utils.shape).
Hypothesis Hframe : in_frame height width s.
Hypothesis Hheight : 0 < height.
Hypothesis Hwidth : 0 < width.

Local Abbreviation r := (utils.radius s).
Local Abbreviation window := (seqZ (- utils.radius s) (2 * utils.radius s + 1)).

Lemma raster_sum (f : Z → Z → Z) :
  grid_sum f 0 (mask_rows (utils.rasterize height width s))
  = zsum (λ y, zsum (λ x, disc_weight r (y - utils.cy s) (x - utils.cx s) * f x y)
                 (seqZ 0 width)) (seqZ 0 height).
Proof.
  unfold utils.rasterize. rewrite grid_sum_bitmap by lia.
  apply zsum_ext. intros y _. apply zsum_ext. intros x _.
  rewrite <- in_shape_weight. destruct (utils.in_shape s x y); lia.
Qed.

Lemma row_count y :
  zsum (λ x, disc_weight r (y - utils.cy s) (x - utils.cx s)) (seqZ 0 width)
  = disc_row r (y - utils.cy s).
Proof.
  destruct Hframe as (Hr & Hx & Hy).
  rewrite (zsum_window (disc_weight r (y - utils.cy s)) (utils.cx s) r width); try lia.
  - reflexivity.
  - intros d Hd. by apply disc_weight_far_d.
Qed.

Lemma row_moment y :
  zsum (λ x, disc_weight r (y - utils.cy s) (x - utils.cx s) * x) (seqZ 0 width)
  = utils.cx s * disc_row r (y - utils.cy s).
Proof.
  destruct Hframe as (Hr & Hx & Hy).
  rewrite (zsum_ext _ (λ x, (λ d, d * disc_weight r (y - utils.cy s) d) (x - utils.cx s)
                            + utils.cx s * disc_weight r (y - utils.cy s) (x - utils.cx s))).
  2:{ intros x _. simpl. lia. }
  rewrite zsum_plus, zsum_scale, row_count.
  rewrite (zsum_window (λ d, d * disc_weight r (y - utils.cy s) d) (utils.cx s) r width);
    try lia.
  - rewrite disc_row_first_moment by lia. lia.
  - intros d Hd. rewrite disc_weight_far_d by lia. lia.
Qed.

Lemma rasterize_occluded :
  occluded (utils.rasterize height width s) = zsum (disc_row r) window.
Proof.
  destruct Hframe as (Hr & Hx & Hy). unfold occluded. rewrite raster_sum.
  rewrite (zsum_ext _ (λ y, disc_row r (y - utils.cy s))).
  2:{ intros y _. rewrite <- row_count. apply zsum_ext. intros x _. lia. }
  apply (zsum_window (disc_row r) (utils.cy s) r height); try lia.
  intros e He. by apply disc_row_far.
Qed.

Lemma rasterize_occluded_bounds :
  1 ≤ occluded (utils.rasterize height width s) ≤ (2 * r + 1) * (2 * r + 1).
Proof.
  destruct Hframe as (Hr & Hx & Hy). rewrite rasterize_occluded. split.
  - etrans; [apply (disc_row_centre r Hr) |].
    apply zsum_ge_elem.
    + intros e _. by apply disc_row_range.
    + apply elem_of_seqZ. lia.
  - pose proof (zsum_le_bound (disc_row r) window (2 * r + 1)) as H.
    rewrite length_seqZ in H. rewrite Z2Nat.id in H by lia.
    apply H; [| lia]. intros e _. by apply disc_row_range.
Qed.

Lemma rasterize_moment_x :
  grid_sum (λ x _, x) 0 (mask_rows (utils.rasterize height width s))
  = utils.cx s * occluded (utils.rasterize height width s).
Proof.
  destruct Hframe as (Hr & Hx & Hy). rewrite rasterize_occluded, raster_sum.
  rewrite (zsum_ext _ (λ y, utils.cx s * disc_row r (y - utils.cy s))).
  2:{ intros y _. apply row_moment. }
  rewrite zsum_scale. f_equal.
  apply (zsum_window (disc_row r) (utils.cy s) r height); try lia.
  intros e He. by apply disc_row_far.
Qed.

Lemma rasterize_moment_y :
  grid_sum (λ _ y, y) 0 (mask_rows (utils.rasterize height width s))
  = utils.cy s * occluded (utils.rasterize height width s).
Proof.
  destruct Hframe as (Hr & Hx & Hy). rewrite rasterize_occluded, raster_sum.
  rewrite (zsum_ext _ (λ y, (λ e, e * disc_row r e) (y - utils.cy s)
                            + utils.cy s * disc_row r (y - utils.cy s))).
  2:{ intros y _. simpl.
      rewrite (zsum_ext _ (λ x, y * disc_weight r (y - utils.cy s) (x - utils.cx s)))
        by (intros x _; lia).
      rewrite zsum_scale, row_count. lia. }
  rewrite zsum_plus, zsum_scale.
  rewrite (zsum_window (λ e, e * disc_row r e) (utils.cy s) r height); try lia.
  - rewrite disc_first_moment by lia.
    rewrite (zsum_window (disc_row r) (utils.cy s) r height); try lia.
    intros e He. by apply disc_row_far.
  - intros e He. rewrite disc_row_far by lia. lia.
Qed.

Lemma rasterize_resolution :
  resolution (utils.rasterize height width s) = (height, width).
Proof. unfold resolution, utils.rasterize. rewrite size_bitmap by lia. reflexivity. Qed.

End raster.

(** ** The moving-shape generator *)

Lemma for_in_total {A S} (P : nat → S → Prop) (body : S → A → M S) (l : list A) :
  (∀ i s x g1, P i s → ∃ s' g2, body s x g1 = (Ok s', g2) ∧ P (Datatypes.S i) s') →
  ∀ k acc g, P k acc →
    ∃ r g', for_in l body acc g = (Ok r, g') ∧ P (k + length l)%nat r.
Proof.
  intros Hbody. induction l as [|x l IH]; intros k acc g Hacc.
  - exists acc, g. split; [done |]. by rewrite Nat.add_0_r.
  - destruct (Hbody k acc x g Hacc) as (s1 & g1 & E1 & H1).
    destruct (IH (Datatypes.S k) s1 g1 H1) as (r & g' & E & Hr).
    exists r, g'. split.
    + simpl. by rewrite (bind_ok _ _ _ _ _ E1).
    + simpl length. by replace (k + Datatypes.S (length l))%nat
        with (Datatypes.S k + length l)%nat by lia.
Qed.

Lemma disc_fits (cfg : utils.config) (height width : Z) :
  valid_config cfg → 0 < height → 0 < width →
  0 ≤ utils.radius_lo_pct cfg * Z.min height width / 100 ≤ radius_hi cfg height width
  ∧ 2 * radius_hi cfg height width + 1 ≤ Z.min height width.
Proof.
  intros (Hlo & Hhi & _) Hh Hw. unfold radius_hi.
  set (m := Z.min height width). assert (1 ≤ m) by (unfold m; lia).
  repeat split.
  - apply Z.div_pos; nia.
  - apply Z.div_le_mono; nia.
  - pose proof (Z.mul_div_le (utils.radius_hi_pct cfg * m) 100 ltac:(lia)). nia.
Qed.

Lemma init_shape_run (cfg : utils.config) (height width : Z) g :
  valid_config cfg → 0 < height → 0 < width →
  ∃ s0 g', utils.init_shape cfg height width g = (Ok s0, g')
           ∧ bounded_shape cfg height width s0.
Proof.
  intros Hcfg Hh Hw. destruct (disc_fits cfg height width Hcfg Hh Hw) as [Hr _].
  destruct Hcfg as (_ & _ & Hs & _ & Hspin). unfold utils.init_shape.
  destruct (randint_run 0 (width - 1) g) as (x & E1 & H1); [lia |].
  destruct (randint_run 0 (height - 1) (advance g)) as (y & E2 & H2); [lia |].
  destruct (randint_run (utils.radius_lo_pct cfg * Z.min height width / 100)
              (utils.radius_hi_pct cfg * Z.min height width / 100) (advance (advance g)))
    as (r & E3 & H3); [unfold radius_hi in Hr; lia |].
  destruct (randint_run (- utils.max_speed cfg) (utils.max_speed cfg)
              (advance (advance (advance g)))) as (vx & E4 & H4); [lia |].
  destruct (randint_run (- utils.max_speed cfg) (utils.max_speed cfg)
              (advance (advance (advance (advance g))))) as (vy & E5 & H5); [lia |].
  destruct (randint_run (- utils.max_spin cfg) (utils.max_spin cfg)
              (advance (advance (advance (advance (advance g)))))) as (om & E6 & H6); [lia |].
  eexists _, _. split.
  - cbv zeta. rewrite (bind_ok _ _ _ _ _ E1), (bind_ok _ _ _ _ _ E2), (bind_ok _ _ _ _ _ E3),
      (bind_ok _ _ _ _ _ E4), (bind_ok _ _ _ _ _ E5), (bind_ok _ _ _ _ _ E6). reflexivity.
  - unfold bounded_shape, radius_hi in *. simpl. lia.
Qed.

Lemma move_shape_run (cfg : utils.config) (height width : Z) (s : utils.shape) g :
  valid_config cfg → 0 < height → 0 < width →
  bounded_shape cfg height width s →
  ∃ s' g', utils.move_shape cfg height width s g = (Ok s', g')
           ∧ bounded_shape cfg height width s'
           ∧ in_frame height width s'
           ∧ (in_frame height width s → one_step (utils.max_speed cfg) s s').
Proof.
  intros Hcfg Hh Hw (Hr & Hvx & Hvy).
  destruct (disc_fits cfg height width Hcfg Hh Hw) as [_ Hfit].
  destruct Hcfg as (_ & _ & Hs & Hj & Hspin). unfold utils.move_shape.
  destruct (randint_run (- utils.max_jitter cfg) (utils.max_jitter cfg) g)
    as (jx & E1 & H1); [lia |].
  destruct (randint_run (- utils.max_jitter cfg) (utils.max_jitter cfg) (advance g))
    as (jy & E2 & H2); [lia |].
  destruct (randint_run (- utils.max_jitter cfg) (utils.max_jitter cfg) (advance (advance g)))
    as (jw & E3 & H3); [lia |].
  eexists _, _. split; [| split; [| split]].
  - rewrite (bind_ok _ _ _ _ _ E1), (bind_ok _ _ _ _ _ E2), (bind_ok _ _ _ _ _ E3).
    reflexivity.
  - unfold bounded_shape, utils.clamp. simpl. lia.
  - unfold in_frame, utils.clamp. simpl. lia.
  - unfold in_frame, one_step, utils.clamp. simpl. lia.
Qed.

Lemma shape_trace_step (cfg : utils.config) (height width : Z) :
  valid_config cfg → 0 < height → 0 < width →
  ∀ (i : nat) (acc : utils.shape * list Image) (x : Z) g1,
    shape_trace cfg height width i acc →
    ∃ acc' g2,
      (λ '(s, masks) (_ : Z),
         s' ← utils.move_shape cfg height width s;
         mret (s', masks ++ [utils.rasterize height width s'])) acc x g1 = (Ok acc', g2)
      ∧ shape_trace cfg height width (S i) acc'.
Proof.
  intros Hcfg Hh Hw i [s masks] x g1 (Hb & sts & Hm & Hlen & Hall & Hadj & Hlast).
  simpl in Hb, Hm, Hlast.
  destruct (move_shape_run cfg height width s g1 Hcfg Hh Hw Hb)
    as (s' & g2 & E & Hb' & Hf' & Hstep).
  exists (s', masks ++ [utils.rasterize height width s']), g2. split.
  { by rewrite (bind_ok _ _ _ _ _ E). }
  split; [done |]. exists (sts ++ [s']). simpl. split; [| split; [| split; [| split]]].
  - by rewrite Hm, fmap_app.
  - rewrite length_app. simpl. lia.
  - apply Forall_app. split; [done |]. apply Forall_cons. split; [done | constructor].
  - intros j t1 t2 H1 H2.
    destruct (decide (S j < length sts)%nat) as [Hj|Hj].
    + rewrite lookup_app_l in H1 by lia. rewrite lookup_app_l in H2 by lia. eauto.
    + assert (S j = length sts) as Hj'.
      { apply lookup_lt_Some in H2. rewrite length_app in H2. simpl in H2. lia. }
      rewrite lookup_app_l in H1 by lia.
      rewrite lookup_app_r in H2 by lia. rewrite Hj', Nat.sub_diag in H2.
      simpl in H2. inversion H2; subst t2; clear H2.
      destruct Hlast as [-> | Hlast]; [done |].
      rewrite last_lookup in Hlast. rewrite <- Hj' in Hlast. simpl in Hlast.
      rewrite H1 in Hlast. inversion Hlast; subst t1.
      apply Hstep. rewrite Forall_forall in Hall.
      apply (Hall s). by eapply list_elem_of_lookup_2.
  - right. by rewrite last_snoc.
Qed.

Lemma generate_moving_shape_run (cfg : utils.config) (frame_count height width : Z) g :
  valid_config cfg → 0 < height → 0 < width →
  ∃ masks g',
    utils.generate_moving_shape cfg frame_count height width g = (Ok masks, g')
    ∧ ∃ s, shape_trace cfg height width (Z.to_nat frame_count) (s, masks).
Proof.
  intros Hcfg Hh Hw. unfold utils.generate_moving_shape.
  destruct (Z.leb_spec height 0); [lia |]. destruct (Z.leb_spec width 0); [lia |]. simpl.
  destruct (init_shape_run cfg height width g Hcfg Hh Hw) as (s0 & g1 & E0 & Hb0).
  rewrite (bind_ok _ _ _ _ _ E0).
  destruct (for_in_total (shape_trace cfg height width)
              (λ '(s, masks) (_ : Z),
                 s' ← utils.move_shape cfg height width s;
                 mret (s', masks ++ [utils.rasterize height width s']))
              (range frame_count)
              (shape_trace_step cfg height width Hcfg Hh Hw)
              0%nat (s0, []) g1) as ([s masks] & g2 & E & Htrace).
  { split; [done |]. exists []. simpl.
    split; [done |]. split; [done |]. split; [constructor |]. split; [| by left].
    intros j t1 t2 H1. by rewrite lookup_nil in H1. }
  exists masks, g2. split.
  - by rewrite (bind_ok _ _ _ _ _ E).
  - exists s. unfold range in Htrace. rewrite length_seqZ in Htrace. exact Htrace.
Qed.

(** ** Coverage and centroid of a rasterized shape *)

Lemma raster_coverage (cfg : utils.config) (height width : Z) (s : utils.shape) :
  0 < height → 0 < width → roomy cfg height width →
  in_frame height width s → bounded_shape cfg height width s →
  (0 < coverage_ratio (utils.rasterize height width s)
   ∧ coverage_ratio (utils.rasterize height width s) < utils.max_coverage cfg)%Q.
Proof.
  intros Hh Hw Hroomy Hf (Hr & _).
  pose proof (rasterize_occluded_bounds height width s Hf Hh Hw) as Hocc.
  unfold coverage_ratio. unfold utils.rasterize at 2 3 5 6. rewrite size_bitmap by lia.
  simpl fst; simpl snd.
  assert (0 < inject_Z (height * width))%Q as Harea.
  { change 0%Q with (inject_Z 0). rewrite <- Zlt_Qlt. nia. }
  split.
  - apply Qlt_shift_div_l; [done |]. rewrite Qmult_0_l.
    change 0%Q with (inject_Z 0). rewrite <- Zlt_Qlt. lia.
  - apply Qlt_shift_div_r; [done |].
    eapply Qle_lt_trans; [| exact Hroomy]. rewrite <- Zle_Qle.
    etrans; [apply Hocc |]. nia.
Qed.

Lemma raster_centroid (height width : Z) (s : utils.shape) :
  0 < height → 0 < width → in_frame height width s →
  (fst (centroid (utils.rasterize height width s)) == inject_Z (utils.cx s)
   ∧ snd (centroid (utils.rasterize height width s)) == inject_Z (utils.cy s))%Q.
Proof.
  intros Hh Hw Hf.
  pose proof (rasterize_occluded_bounds height width s Hf Hh Hw) as Hocc.
  assert (¬ (inject_Z (occluded (utils.rasterize height width s)) == 0)%Q) as Hnz.
  { change 0%Q with (inject_Z 0). rewrite inject_Z_injective. lia. }
  unfold centroid. cbn [fst snd].
  rewrite rasterize_moment_x, rasterize_moment_y by done.
  rewrite !inject_Z_mult. split; by apply Qdiv_mult_l.
Qed.

Lemma raster_displacement (height width bound : Z) (s1 s2 : utils.shape) :
  0 < height → 0 < width →
  in_frame height width s1 → in_frame height width s2 → one_step bound s1 s2 →
  (dist2 (centroid (utils.rasterize height width s1))
         (centroid (utils.rasterize height width s2))
   <= inject_Z (2 * bound * bound))%Q.
Proof.
  intros Hh Hw H1 H2 [Hx Hy].
  destruct (raster_centroid height width s1 Hh Hw H1) as [Ex1 Ey1].
  destruct (raster_centroid height width s2 Hh Hw H2) as [Ex2 Ey2].
  unfold dist2. rewrite Ex1, Ey1, Ex2, Ey2.
  assert ((inject_Z (utils.cx s1) - inject_Z (utils.cx s2))
            * (inject_Z (utils.cx s1) - inject_Z (utils.cx s2))
          + (inject_Z (utils.cy s1) - inject_Z (utils.cy s2))
            * (inject_Z (utils.cy s1) - inject_Z (utils.cy s2))
          == inject_Z ((utils.cx s1 - utils.cx s2) * (utils.cx s1 - utils.cx s2)
                       + (utils.cy s1 - utils.cy s2) * (utils.cy s1 - utils.cy s2)))%Q
    as ->.
  { unfold Z.sub. rewrite !inject_Z_plus, !inject_Z_mult, !inject_Z_plus, !inject_Z_opp. ring. }
  rewrite <- Zle_Qle. nia.
Qed.

(** A mask of a single pixel is empty or covers the whole frame. *)
Lemma one_pixel_coverage (b : bool) :
  (coverage_ratio (Bitmap [[b]]) == 0 ∨ coverage_ratio (Bitmap [[b]]) == 1)%Q.
Proof. destruct b; [right | left]; reflexivity. Qed.





(** * Further properties of the code *)

(** ** The sampler on arbitrary requests *)

Lemma get_ref_index_raises l k g e g' :
  get_ref_index l k g = (Raise e, g') → e = ValueError ∧ g' = advance g.
Proof.
  destruct (scattered g) eqn:Hb.
  - rewrite get_ref_index_scattered by done.
    destruct (decide (0 ≤ k ≤ len (range l))) as [Hk|Hk].
    + destruct (sample_run (range l) k (advance g) Hk) as (ys & g1 & E & _).
      rewrite (bind_ok _ _ _ _ _ E). discriminate.
    + rewrite (bind_raise _ _ _ _ _
                 (sample_invalid (range l) k (advance g) ltac:(lia))).
      intros H. by inversion H.
  - rewrite get_ref_index_contiguous by done.
    destruct (decide (0 ≤ l - k)) as [Hk|Hk].
    + destruct (randint_run 0 (l - k) (advance g) Hk) as (v & E & _).
      rewrite (bind_ok _ _ _ _ _ E). discriminate.
    + rewrite (bind_raise _ _ _ _ _ (randint_empty 0 (l - k) (advance g) ltac:(lia))).
      intros H. by inversion H.
Qed.

(** X1.  For all integers [length] and [sample_length]: the scattered
    branch returns exactly when [0 <= sample_length <= max(0, length)],
    the contiguous branch exactly when [sample_length <= length]; a call
    that does not return raises [ValueError] after its first draw. *)
Theorem sampler_returns_exactly_when (length sample_length : Z) (g : rng) :
  (scattered g = true →
   ((∃ xs g', get_ref_index length sample_length g = (Ok xs, g'))
    ↔ 0 ≤ sample_length ≤ Z.max 0 length))
  ∧ (scattered g = false →
     ((∃ xs g', get_ref_index length sample_length g = (Ok xs, g'))
      ↔ sample_length ≤ length))
  ∧ (∀ e g', get_ref_index length sample_length g = (Raise e, g') →
       e = ValueError ∧ g' = advance g).
Proof.
  split; [| split].
  - intros Hb. rewrite get_ref_index_scattered by done. split.
    + intros (xs & g' & E).
      destruct (decide (0 ≤ sample_length ≤ Z.max 0 length)) as [|Hk]; [done |].
      rewrite (bind_raise _ _ _ _ _
                 (sample_invalid (range length) sample_length (advance g)
                    ltac:(rewrite len_range; lia))) in E.
      discriminate.
    + intros Hk.
      destruct (sample_run (range length) sample_length (advance g))
        as (ys & g1 & E & _); [rewrite len_range; lia |].
      exists (sort ys), g1. by rewrite (bind_ok _ _ _ _ _ E).
  - intros Hb. rewrite get_ref_index_contiguous by done. split.
    + intros (xs & g' & E).
      destruct (decide (sample_length ≤ length)) as [|Hk]; [done |].
      rewrite (bind_raise _ _ _ _ _
                 (randint_empty 0 (length - sample_length) (advance g) ltac:(lia))) in E.
      discriminate.
    + intros Hk.
      destruct (randint_run 0 (length - sample_length) (advance g)) as (v & E & _); [lia |].
      eexists _, _. by rewrite (bind_ok _ _ _ _ _ E).
  - intros e g'. apply get_ref_index_raises.
Qed.

Lemma sampler_returns_exactly_when_witness :
  (scattered (tape_of [2 ^ 53 - 1; 1]) = true
   ∧ ((∃ xs g', get_ref_index 4 0 (tape_of [2 ^ 53 - 1; 1]) = (Ok xs, g'))
      ↔ 0 ≤ 0 ≤ Z.max 0 4))
  ∧ (scattered (tape_of [0; 1]) = false
     ∧ ((∃ xs g', get_ref_index 4 (-2) (tape_of [0; 1]) = (Ok xs, g')) ↔ -2 ≤ 4))
  ∧ (get_ref_index 4 5 (tape_of [0; 1]) = (Raise ValueError, advance (tape_of [0; 1]))
     ∧ ValueError = ValueError ∧ advance (tape_of [0; 1]) = advance (tape_of [0; 1])).
Proof.
  split; [| split].
  - split; [reflexivity |].
    apply (sampler_returns_exactly_when 4 0 (tape_of [2 ^ 53 - 1; 1])). reflexivity.
  - split; [reflexivity |].
    apply (sampler_returns_exactly_when 4 (-2) (tape_of [0; 1])). reflexivity.
  - split; [reflexivity |].
    apply (proj2 (proj2 (sampler_returns_exactly_when 4 5 (tape_of [0; 1])))). reflexivity.
Defined.

(** X2.  Whatever the request, a list that the sampler or one of its
    method copies returns has exactly [max(0, sample_length)] entries. *)
Theorem sampler_result_length (length sample_length : Z) (g : rng)
    (music : MUSICDataset.t) (ave : AVEDataset.t) (xs : list Z) (g' : rng) :
  (get_ref_index length sample_length g = (Ok xs, g')
   ∨ MUSICDataset.get_frame_index music length sample_length g = (Ok xs, g')
   ∨ AVEDataset.get_ref_index ave length sample_length g = (Ok xs, g')) →
  len xs = Z.max 0 sample_length.
Proof.
  rewrite get_frame_index_eq, AVE_get_ref_index_eq.
  intros [E | [E | E]]; by eapply get_ref_index_len.
Qed.

Lemma sampler_result_length_witness :
  get_ref_index 5 (-1) (tape_of [0; 3]) = (Ok [], advance (advance (tape_of [0; 3])))
  ∧ len ([] : list Z) = Z.max 0 (-1).
Proof.
  assert (get_ref_index 5 (-1) (tape_of [0; 3])
          = (Ok [], advance (advance (tape_of [0; 3])))) as E by reflexivity.
  split; [exact E |].
  exact (sampler_result_length 5 (-1) (tape_of [0; 3]) music_set ave_set []
           (advance (advance (tape_of [0; 3]))) (or_introl E)).
Defined.

(** ** Loops, once more *)

Lemma for_in_inv_prefix {A S} (P : list A → S → Prop) (body : S → A → M S) :
  ∀ (l done : list A) acc g r g',
    P done acc →
    (∀ d s x g1 s' g2, P d s → x ∈ l → body s x g1 = (Ok s', g2) → P (d ++ [x]) s') →
    for_in l body acc g = (Ok r, g') → P (done ++ l) r.
Proof.
  induction l as [|x l IH]; intros done acc g r g' Hacc Hbody E; simpl in E.
  - inversion E; subst. by rewrite app_nil_r.
  - apply bind_inv in E as (s1 & g1 & E1 & E2).
    replace (done ++ x :: l) with ((done ++ [x]) ++ l) by (by rewrite <- app_assoc).
    eapply IH; [| | exact E2].
    + eapply Hbody; [exact Hacc | by left | exact E1].
    + intros d s y ga s' gb Hs Hy. eapply Hbody; [done | by right].
Qed.

Lemma getitem_fmap_seqZ {B} (f : Z → B) (a n i : Z) g x g' :
  0 ≤ i →
  getitem (f <$> seqZ a n) i g = (Ok x, g') → x = f (a + i) ∧ i < n ∧ g' = g.
Proof.
  intros Hi. unfold getitem. destruct (Z.ltb_spec i 0); [lia |].
  destruct (Z.ltb_spec i 0); [lia |].
  rewrite list_lookup_fmap. destruct (seqZ a n !! Z.to_nat i) as [y|] eqn:E; [| discriminate].
  apply lookup_seqZ in E as [-> Hlt]. simpl. intros Eq. inversion Eq; subst.
  repeat split; [f_equal; lia | lia].
Qed.

Lemma Image_open_inv (F : files) path g im g' :
  Image_open path g = (Ok im, g') →
  ∃ hdr, disk !! path = Some hdr ∧ im = Decoded path hdr ∧ g' = g.
Proof.
  unfold Image_open. destruct (disk !! path) as [hdr|]; [| discriminate].
  intros Eq. inversion Eq; subst. by exists hdr.
Qed.

Lemma assert_inv b g u g' : assert b g = (Ok u, g') → b = true ∧ g' = g.
Proof. destruct b; [| discriminate]. intros E. by inversion E. Qed.

Lemma size_eqb_eq a b : size_eqb a b = true → a = b.
Proof.
  destruct a, b. unfold size_eqb. simpl. intros [?%Z.eqb_eq ?%Z.eqb_eq]%andb_true_iff.
  by subst.
Qed.

Lemma size_flip_all flip frames :
  size <$> flip_all flip frames = size <$> frames.
Proof.
  destruct flip; [| done]. simpl. rewrite <- list_fmap_compose. by apply list_fmap_ext.
Qed.

Lemma dict_getitem_inv {V} (d : gmap string V) k g v g' :
  dict_getitem d k g = (Ok v, g') → d !! k = Some v ∧ g' = g.
Proof.
  unfold dict_getitem. destruct (d !! k); [| discriminate]. intros E. by inversion E.
Qed.

Lemma Forall2_zip_with_Forall {A B C} (R : A → B → Prop) (f : A → B → C)
    (P : C → Prop) (l : list A) (k : list B) :
  Forall2 R l k → (∀ a b, R a b → P (f a b)) → Forall P (zip_with f l k).
Proof. intros H HP. induction H; simpl; constructor; auto. Qed.

(** ** Items of [MUSICDataset] *)

(** X3.  When [MUSICDataset.__getitem__] returns, its frames are, in
    increasing order of the sampled indices, the decoded files
    [root_dir/png/video/NNNNN.png] numbered from 1 (index [i] reads file
    [i + 1]), each of them of size [image_shape], all mirrored or none:
    so there are [max(0, ref_frames)] frames and all have the size
    [(image_width, image_height)]. *)
Theorem music_item_frames (U : core_utils) (F : files) (self : MUSICDataset.t)
    (index : Z) (g : rng) (frames masks : list Image) :
  fst (MUSICDataset.__getitem__ self index g) = Ok (frames, masks) →
  ∃ (video_id : string) (n : Z) (idxs : list Z) (flip : bool) (hdrs : list header),
    video_id ∈ MUSICDataset.video_ids self
    ∧ MUSICDataset.video_dict self !! video_id = Some n
    ∧ increasing idxs ∧ within n idxs
    ∧ len idxs = Z.max 0 (MUSICDataset.ref_frames self)
    ∧ Forall2 (λ i hdr, disk !! music_frame_path self video_id i = Some hdr
                        ∧ (h_width hdr, h_height hdr) = MUSICDataset.image_shape self)
        idxs hdrs
    ∧ frames = flip_all flip
        (zip_with (λ i hdr, Decoded (music_frame_path self video_id i) hdr) idxs hdrs)
    ∧ len frames = Z.max 0 (MUSICDataset.ref_frames self)
    ∧ Forall (λ f, size f = MUSICDataset.image_shape self) frames.
Proof.
  intros E0. apply fst_ok_inv in E0 as [g' E]. unfold MUSICDataset.__getitem__ in E.
  apply bind_inv in E as (video_id & g1 & Eid & E).
  apply bind_inv in E as (n & g2 & En & E). cbv zeta in E.
  apply bind_inv in E as (idxs & g3 & Eidx & E).
  apply bind_inv in E as (ms & g4 & _ & E).
  apply bind_inv in E as (fs & g5 & Eloop & E).
  apply bind_inv in E as (u & g6 & _ & E).
  inversion E; subst; clear E.
  apply getitem_inv in Eid as [Hid _]. apply dict_getitem_inv in En as [Hn _].
  rewrite get_frame_index_eq in Eidx.
  pose proof (get_ref_index_len _ _ _ _ _ Eidx) as Hlen.
  apply get_ref_index_returns in Eidx as [Hinc Hin].
  assert (within n idxs) as Hwithin.
  { eapply Forall_impl; [exact Hin |]. intros i Hi. simpl in Hi. unfold len in Hi.
    rewrite length_fmap in Hi. unfold range2 in Hi. rewrite length_seqZ in Hi. lia. }
  assert (∃ hdrs,
    Forall2 (λ i hdr, disk !! music_frame_path self video_id i = Some hdr
                      ∧ (h_width hdr, h_height hdr) = MUSICDataset.image_shape self)
      idxs hdrs
    ∧ fs = zip_with (λ i hdr, Decoded (music_frame_path self video_id i) hdr) idxs hdrs)
    as (hdrs & Hhdrs & ->).
  { apply (for_in_inv_prefix
             (λ done (s : list Image), ∃ hdrs,
                Forall2 (λ i hdr, disk !! music_frame_path self video_id i = Some hdr
                                  ∧ (h_width hdr, h_height hdr) = MUSICDataset.image_shape self)
                  done hdrs
                ∧ s = zip_with (λ i hdr, Decoded (music_frame_path self video_id i) hdr)
                        done hdrs))
      with (done := []) in Eloop.
    - exact Eloop.
    - exists []. split; [constructor | done].
    - intros d s i ga s' gb (hs & Hhs & ->) Hi Eb.
      unfold within in Hin. rewrite Forall_forall in Hin. specialize (Hin i Hi). simpl in Hin.
      apply bind_inv in Eb as (name & gc & Ename & Eb).
      apply bind_inv in Eb as (image & gd & Eimg & Eb).
      apply bind_inv in Eb as (u1 & ge & Eassert & Eb).
      inversion Eb; subst; clear Eb.
      unfold range2 in Ename.
      apply getitem_fmap_seqZ in Ename as (-> & _ & _); [| lia].
      apply Image_open_inv in Eimg as (hdr & Hdisk & -> & _).
      apply assert_inv in Eassert as [Hsize%size_eqb_eq _]. simpl in Hsize.
      exists (hs ++ [hdr]). split.
      + apply Forall2_app; [done |]. constructor; [| constructor]. by split.
      + rewrite zip_with_app by (by eapply Forall2_length). done. }
  set (flip := Qgtb u (1 # 2)).
  exists video_id, n, idxs, flip, hdrs.
  assert (length (zip_with (λ i hdr, Decoded (music_frame_path self video_id i) hdr)
                    idxs hdrs) = length idxs) as Hl.
  { rewrite length_zip_with. apply Forall2_length in Hhdrs. lia. }
  repeat split; try done.
  - unfold len in *. destruct flip; simpl; [rewrite length_fmap |]; lia.
  - assert (Forall (λ f, size f = MUSICDataset.image_shape self)
              (zip_with (λ i hdr, Decoded (music_frame_path self video_id i) hdr) idxs hdrs))
      as Hz.
    { eapply Forall2_zip_with_Forall; [exact Hhdrs |]. by intros i hdr [_ Hsz]. }
    destruct flip; simpl; [| done]. apply Forall_fmap.
    eapply Forall_impl; [exact Hz |]. done.
Qed.

Lemma music_item_frames_witness :
  let g := tape_of [0; 4; 0] in
  let item := fst (@MUSICDataset.__getitem__ (@spec_utils music_files) music_files
                     music_set 0 g) in
  let frames :=
    [Decoded "music/png/vidA/00005.png" (Header "RGB" 256 256);
     Decoded "music/png/vidA/00006.png" (Header "RGB" 256 256);
     Decoded "music/png/vidA/00007.png" (Header "RGB" 256 256)] in
  let masks := match item with Ok (_, masks) => masks | Raise _ => [] end in
  item = Ok (frames, masks)
  ∧ len frames = Z.max 0 (MUSICDataset.ref_frames music_set)
  ∧ Forall (λ f, size f = MUSICDataset.image_shape music_set) frames.
Proof.
  intros g item frames masks.
  assert (item = Ok (frames, masks)) as E by reflexivity.
  split; [exact E |].
  destruct (music_item_frames (@spec_utils music_files) music_files music_set 0 g
              frames masks E) as (_ & _ & _ & _ & _ & _ & _ & _ & _ & _ & _ & _ & Hlen & Hsz).
  split; [exact Hlen | exact Hsz].
Defined.

Lemma getitem_out_of_range {A} (l : list A) (i : Z) g :
  i < - len l ∨ len l ≤ i → getitem l i g = (Raise IndexError, g).
Proof.
  intros Hi. unfold getitem, len in *.
  destruct (Z.ltb_spec i 0).
  - destruct (Z.ltb_spec (Z.of_nat (length l) + i) 0); [done | lia].
  - destruct (Z.ltb_spec i 0); [lia |].
    rewrite lookup_ge_None_2 by lia. done.
Qed.

Lemma getitem_in_range {A} (l : list A) (i : Z) g :
  - len l ≤ i < len l → ∃ x, getitem l i g = (Ok x, g) ∧ x ∈ l.
Proof.
  intros Hi. unfold getitem, len in *.
  set (j := if i <? 0 then Z.of_nat (length l) + i else i).
  assert (0 ≤ j < Z.of_nat (length l)) as Hj.
  { unfold j. destruct (Z.ltb_spec i 0); lia. }
  destruct (Z.ltb_spec j 0); [lia |].
  destruct (lookup_lt_is_Some_2 l (Z.to_nat j)) as [x Ex]; [lia |].
  rewrite Ex. exists x. split; [done | by eapply list_elem_of_lookup_2].
Qed.

Lemma music_short_video (U : core_utils) (F : files) (self : MUSICDataset.t)
    (index : Z) (g : rng) (video_id : string) (n : Z) :
  getitem (MUSICDataset.video_ids self) index g = (Ok video_id, g) →
  MUSICDataset.video_dict self !! video_id = Some n →
  Z.max 0 n < MUSICDataset.ref_frames self →
  MUSICDataset.__getitem__ self index g = (Raise ValueError, advance g).
Proof.
  intros Eid Hn Hshort. unfold MUSICDataset.__getitem__.
  rewrite (bind_ok _ _ _ _ _ Eid).
  assert (dict_getitem (MUSICDataset.video_dict self) video_id g = (Ok n, g)) as En.
  { unfold dict_getitem. by rewrite Hn. }
  rewrite (bind_ok _ _ _ _ _ En). cbv zeta.
  set (all_frames := (λ i, zfill 5 (str i) +:+ ".png") <$> range2 1 (n + 1)).
  assert (len all_frames = Z.max 0 n) as Hlen.
  { unfold all_frames, len, range2. rewrite length_fmap, length_seqZ. lia. }
  rewrite get_frame_index_eq.
  destruct (get_ref_index_oversized (len all_frames) (MUSICDataset.ref_frames self) g)
    as [g' E]; [lia | lia |].
  pose proof (get_ref_index_raises _ _ _ _ _ E) as [_ ->].
  by rewrite (bind_raise _ _ _ _ _ E).
Qed.

(** X4.  Two ways [MUSICDataset.__getitem__] fails before it reads any
    file: an index outside [[-len, len)] raises [IndexError] and leaves
    the generator untouched; a video with fewer frames than
    [ref_frames] raises [ValueError] after the sampler's first draw, in
    either branch and with any mask generator. *)
Theorem music_item_fails_early (U : core_utils) (F : files) (self : MUSICDataset.t)
    (index : Z) (g : rng) :
  (index < - MUSICDataset.__len__ self ∨ MUSICDataset.__len__ self ≤ index →
   MUSICDataset.__getitem__ self index g = (Raise IndexError, g))
  ∧ (∀ video_id n,
       getitem (MUSICDataset.video_ids self) index g = (Ok video_id, g) →
       MUSICDataset.video_dict self !! video_id = Some n →
       Z.max 0 n < MUSICDataset.ref_frames self →
       MUSICDataset.__getitem__ self index g = (Raise ValueError, advance g)).
Proof.
  split.
  - intros Hi. unfold MUSICDataset.__getitem__.
    by rewrite (bind_raise _ _ _ _ _ (getitem_out_of_range _ _ g Hi)).
  - intros video_id n. apply music_short_video.
Qed.

Lemma music_item_fails_early_witness :
  (MUSICDataset.__len__ music_set ≤ 1
   ∧ @MUSICDataset.__getitem__ (@spec_utils music_files) music_files music_set 1 (tape_of [])
     = (Raise IndexError, tape_of []))
  ∧ (getitem (MUSICDataset.video_ids short_music_set) 0 (tape_of []) = (Ok "vidA", tape_of [])
     ∧ MUSICDataset.video_dict short_music_set !! "vidA" = Some 2
     ∧ Z.max 0 2 < MUSICDataset.ref_frames short_music_set
     ∧ @MUSICDataset.__getitem__ (@spec_utils music_files) music_files short_music_set 0
         (tape_of [])
       = (Raise ValueError, advance (tape_of []))).
Proof.
  split.
  - assert (MUSICDataset.__len__ music_set ≤ 1) as Hi by (vm_compute; discriminate).
    split; [exact Hi |].
    exact (proj1 (music_item_fails_early (@spec_utils music_files) music_files music_set 1
                    (tape_of [])) (or_intror Hi)).
  - assert (getitem (MUSICDataset.video_ids short_music_set) 0 (tape_of [])
            = (Ok "vidA", tape_of [])) as E by reflexivity.
    assert (MUSICDataset.video_dict short_music_set !! "vidA" = Some 2) as Hn by reflexivity.
    assert (Z.max 0 2 < MUSICDataset.ref_frames short_music_set) as Hs
      by (vm_compute; reflexivity).
    split; [exact E |]. split; [exact Hn |]. split; [exact Hs |].
    exact (proj2 (music_item_fails_early (@spec_utils music_files) music_files
                    short_music_set 0 (tape_of [])) "vidA" 2 E Hn Hs).
Defined.

Lemma getitem_fmap_seqZ_ok {B} (f : Z → B) (a n i : Z) g :
  0 ≤ i < n → getitem (f <$> seqZ a n) i g = (Ok (f (a + i)), g).
Proof.
  intros Hi. unfold getitem. destruct (Z.ltb_spec i 0); [lia |].
  destruct (Z.ltb_spec i 0); [lia |].
  rewrite list_lookup_fmap, lookup_seqZ_lt by lia. rewrite Z2Nat.id by lia. reflexivity.
Qed.

Lemma size_eqb_neq a b : a ≠ b → size_eqb a b = false.
Proof.
  intros Hne. destruct (size_eqb a b) eqn:E; [| done]. by apply size_eqb_eq in E.
Qed.

Lemma for_in_cons_raise {A S} (body : S → A → M S) (x : A) (l : list A) acc g e g' :
  body acc x g = (Raise e, g') → for_in (x :: l) body acc g = (Raise e, g').
Proof. intros E. simpl. by apply bind_raise. Qed.

Lemma get_ref_index_contiguous_value l k g :
  k ≤ l → scattered g = false →
  get_ref_index l k g
  = (Ok (seqZ (tape g (S (cursor g)) `mod` (l - k + 1)) k), advance (advance g)).
Proof.
  intros Hk Hb. rewrite get_ref_index_contiguous by done.
  pose proof (randint_value 0 (l - k) (advance g) ltac:(lia)) as E.
  replace (l - k + 1 - 0) with (l - k + 1) in E by lia.
  rewrite Z.add_0_l in E. simpl cursor in E. simpl tape in E.
  rewrite (bind_ok _ _ _ _ _ E). by rewrite <- fmap_shift_range.
Qed.

(** X13.  A frame file that is missing or has another size stops
    [MUSICDataset.__getitem__]: in the contiguous branch, with a video of
    at least [ref_frames] frames, the first file read is the one of the
    pivot; if it is missing the call raises [FileNotFoundError], and if
    its size is not [image_shape] the assertion raises
    [AssertionError]. *)
Theorem music_item_bad_frame (U : core_utils) (F : files) (self : MUSICDataset.t)
    (index : Z) (g : rng) (video_id : string) (n : Z) (ms : list Image) (g2 : rng) :
  getitem (MUSICDataset.video_ids self) index g = (Ok video_id, g) →
  MUSICDataset.video_dict self !! video_id = Some n →
  1 ≤ MUSICDataset.ref_frames self ≤ n →
  scattered g = false →
  create_fixed_rectangular_mask 5 256 256 42 (advance (advance g)) = (Ok ms, g2) →
  let pivot := tape g (S (cursor g)) `mod` (n - MUSICDataset.ref_frames self + 1) in
  (disk !! music_frame_path self video_id pivot = None →
   MUSICDataset.__getitem__ self index g = (Raise FileNotFoundError, g2))
  ∧ (∀ hdr, disk !! music_frame_path self video_id pivot = Some hdr →
       (h_width hdr, h_height hdr) ≠ MUSICDataset.image_shape self →
       MUSICDataset.__getitem__ self index g = (Raise AssertionError, g2)).
Proof.
  intros Eid Hn Hk Hb Emask pivot.
  assert (0 ≤ pivot < n - MUSICDataset.ref_frames self + 1) as Hp
    by (apply Z.mod_pos_bound; lia).
  assert (dict_getitem (MUSICDataset.video_dict self) video_id g = (Ok n, g)) as En.
  { unfold dict_getitem. by rewrite Hn. }
  set (all_frames := (λ i, zfill 5 (str i) +:+ ".png") <$> range2 1 (n + 1)).
  assert (len all_frames = n) as Hlen.
  { unfold all_frames, len, range2. rewrite length_fmap, length_seqZ. lia. }
  assert (MUSICDataset.get_frame_index self (len all_frames) (MUSICDataset.ref_frames self) g
          = (Ok (pivot :: seqZ (Z.succ pivot) (Z.pred (MUSICDataset.ref_frames self))),
             advance (advance g))) as Eidx.
  { rewrite get_frame_index_eq, Hlen.
    rewrite (get_ref_index_contiguous_value n (MUSICDataset.ref_frames self) g
               ltac:(lia) Hb).
    fold pivot. by rewrite (seqZ_cons pivot) by lia. }
  assert (∀ g0, getitem all_frames pivot g0
                = (Ok (zfill 5 (str (1 + pivot)) +:+ ".png"), g0)) as Ename.
  { intros g0. unfold all_frames, range2.
    apply (getitem_fmap_seqZ_ok (λ i, zfill 5 (str i) +:+ ".png")). lia. }
  assert (∀ e,
            (∀ fs0 : list Image,
               (name ← getitem all_frames pivot;
                let image_path :=
                  MUSICDataset.root_dir self +:+ "/png/" +:+ video_id +:+ "/" +:+ name in
                image ← Image_open image_path;
                _ ← assert (size_eqb (size image) (MUSICDataset.image_shape self));
                mret (fs0 ++ [image])) g2 = (Raise e, g2)) →
            MUSICDataset.__getitem__ self index g = (Raise e, g2)) as Hstop.
  { intros e Hbody. unfold MUSICDataset.__getitem__.
    rewrite (bind_ok _ _ _ _ _ Eid), (bind_ok _ _ _ _ _ En). cbv zeta.
    fold all_frames. rewrite (bind_ok _ _ _ _ _ Eidx), (bind_ok _ _ _ _ _ Emask).
    apply bind_raise. apply for_in_cons_raise. apply Hbody. }
  split.
  - intros Hnone. apply Hstop. intros fs0.
    rewrite (bind_ok _ _ _ _ _ (Ename g2)). cbv zeta. apply bind_raise.
    unfold Image_open. fold (music_frame_path self video_id pivot). by rewrite Hnone.
  - intros hdr Hsome Hsize. apply Hstop. intros fs0.
    rewrite (bind_ok _ _ _ _ _ (Ename g2)). cbv zeta.
    assert (Image_open (music_frame_path self video_id pivot) g2
            = (Ok (Decoded (music_frame_path self video_id pivot) hdr), g2)) as Eimg.
    { unfold Image_open. by rewrite Hsome. }
    fold (music_frame_path self video_id pivot).
    rewrite (bind_ok _ _ _ _ _ Eimg). apply bind_raise.
    simpl size. by rewrite size_eqb_neq.
Qed.

Lemma music_item_bad_frame_witness :
  let g := tape_of [0; 4; 0] in
  let g2 := advance (advance g) in
  let ms := match fst (utils.create_fixed_rectangular_mask 5 256 256 42 g2) with
            | Ok ms => ms
            | Raise _ => []
            end in
  let narrow :=
    {| MUSICDataset.root_dir := "music";
       MUSICDataset.ref_frames := 3;
       MUSICDataset.image_width := 128;
       MUSICDataset.image_height := 256;
       MUSICDataset.video_dict := {[ "vidA" := 10 ]};
       MUSICDataset.video_ids := ["vidA"] |} in
  (@disk ave_files !! music_frame_path music_set "vidA" 4 = None
   ∧ @MUSICDataset.__getitem__ (@spec_utils ave_files) ave_files music_set 0 g
     = (Raise FileNotFoundError, g2))
  ∧ (@disk music_files !! music_frame_path narrow "vidA" 4 = Some (Header "RGB" 256 256)
     ∧ (256, 256) ≠ MUSICDataset.image_shape narrow
     ∧ @MUSICDataset.__getitem__ (@spec_utils music_files) music_files narrow 0 g
       = (Raise AssertionError, g2)).
Proof.
  intros g g2 ms narrow.
  assert (getitem ["vidA"] 0 g = (Ok "vidA", g)) as Eid by reflexivity.
  assert (({[ "vidA" := 10 ]} : gmap string Z) !! "vidA" = Some 10) as Hn by reflexivity.
  assert (scattered g = false) as Hb by reflexivity.
  split.
  - assert (@disk ave_files !! music_frame_path music_set "vidA" 4 = None) as Hnone
      by reflexivity.
    split; [exact Hnone |].
    assert (@create_fixed_rectangular_mask (@spec_utils ave_files) 5 256 256 42 g2
            = (Ok ms, g2)) as Em by reflexivity.
    exact (proj1 (music_item_bad_frame (@spec_utils ave_files) ave_files music_set 0 g
                    "vidA" 10 ms g2 Eid Hn ltac:(simpl; lia) Hb Em) Hnone).
  - assert (@disk music_files !! music_frame_path narrow "vidA" 4
            = Some (Header "RGB" 256 256)) as Hsome by reflexivity.
    assert ((256, 256) ≠ MUSICDataset.image_shape narrow) as Hsize by discriminate.
    split; [exact Hsome |]. split; [exact Hsize |].
    assert (@create_fixed_rectangular_mask (@spec_utils music_files) 5 256 256 42 g2
            = (Ok ms, g2)) as Em by reflexivity.
    exact (proj2 (music_item_bad_frame (@spec_utils music_files) music_files narrow 0 g
                    "vidA" 10 ms g2 Eid Hn ltac:(simpl; lia) Hb Em) _ Hsome Hsize).
Defined.

(** ** Items of [AVEDataset] *)

Lemma size_ave_fit (self : AVEDataset.t) (im : Image) :
  size (ave_fit self im) = AVEDataset.image_shape self.
Proof.
  unfold ave_fit. destruct (size_eqb _ _) eqn:E.
  - exact (size_eqb_eq _ _ E).
  - reflexivity.
Qed.

(** X5.  When [AVEDataset.__getitem__] returns, its frames are, in
    increasing order of the sampled indices, the decoded files
    [data_root/split/image/video/NNN.png] numbered from 0, each resized
    to [image_shape] unless it has that size, all mirrored or none (and
    none outside training): there are [max(0, ref_count)] frames, as many
    masks, and every frame has the size [(image_width, image_height)]. *)
Theorem ave_item_frames (U : core_utils) (F : files) (self : AVEDataset.t)
    (index : Z) (g : rng) (frames masks : list Image) :
  fst (AVEDataset.__getitem__ self index g) = Ok (frames, masks) →
  ∃ (video_id : string) (n : Z) (idxs : list Z) (flip : bool) (hdrs : list header),
    video_id ∈ AVEDataset.video_ids self
    ∧ AVEDataset.video_dict self !! video_id = Some n
    ∧ increasing idxs ∧ within n idxs
    ∧ Forall2 (λ i hdr, disk !! ave_frame_path self video_id i = Some hdr) idxs hdrs
    ∧ (AVEDataset.split self ≠ "train" → flip = false)
    ∧ frames = flip_all flip
        (zip_with (λ i hdr, ave_fit self (Decoded (ave_frame_path self video_id i) hdr))
           idxs hdrs)
    ∧ len frames = Z.max 0 (AVEDataset.ref_count self)
    ∧ len masks = Z.max 0 (AVEDataset.ref_count self)
    ∧ Forall (λ f, size f = AVEDataset.image_shape self) frames.
Proof.
  intros E0. apply fst_ok_inv in E0 as [g' E]. unfold AVEDataset.__getitem__ in E.
  apply bind_inv in E as (video_id & g1 & Eid & E).
  apply bind_inv in E as (n & g2 & En & E). cbv zeta in E.
  apply bind_inv in E as (moving & g3 & _ & E).
  apply bind_inv in E as (mask & g4 & _ & E).
  apply bind_inv in E as (idxs & g5 & Eidx & E).
  apply bind_inv in E as ([fs ms] & g6 & Eloop & E).
  apply bind_inv in E as (fs' & g7 & Eflip & E).
  inversion E; subst; clear E.
  apply getitem_inv in Eid as [Hid _]. apply dict_getitem_inv in En as [Hn _].
  rewrite AVE_get_ref_index_eq in Eidx.
  pose proof (get_ref_index_len _ _ _ _ _ Eidx) as Hlen.
  apply get_ref_index_returns in Eidx as [Hinc Hin].
  assert (within n idxs) as Hwithin.
  { eapply Forall_impl; [exact Hin |]. intros i Hi. simpl in Hi. unfold len in Hi.
    rewrite length_fmap in Hi. unfold range in Hi. rewrite length_seqZ in Hi. lia. }
  assert (∃ hdrs,
    Forall2 (λ i hdr, disk !! ave_frame_path self video_id i = Some hdr) idxs hdrs
    ∧ fs = zip_with (λ i hdr, ave_fit self (Decoded (ave_frame_path self video_id i) hdr))
             idxs hdrs
    ∧ length masks = length idxs)
    as (hdrs & Hhdrs & -> & Hms).
  { apply (for_in_inv_prefix
             (λ done (s : list Image * list Image), ∃ hdrs,
                Forall2 (λ i hdr, disk !! ave_frame_path self video_id i = Some hdr)
                  done hdrs
                ∧ s.1 = zip_with
                          (λ i hdr, ave_fit self (Decoded (ave_frame_path self video_id i) hdr))
                          done hdrs
                ∧ length s.2 = length done))
      with (done := []) in Eloop.
    - exact Eloop.
    - exists []. split; [constructor | done].
    - intros d [fs0 ms0] i ga [fs1 ms1] gb (hs & Hhs & Hfs & Hl) Hi Eb. simpl in *.
      unfold within in Hin. rewrite Forall_forall in Hin. specialize (Hin i Hi).
      simpl in Hin.
      apply bind_inv in Eb as (name & gc & Ename & Eb).
      apply bind_inv in Eb as (image & gd & Eimg & Eb).
      apply bind_inv in Eb as (m & ge & _ & Eb).
      inversion Eb; subst; clear Eb.
      unfold range in Ename.
      apply getitem_fmap_seqZ in Ename as (-> & _ & _); [| lia].
      apply Image_open_inv in Eimg as (hdr & Hdisk & -> & _).
      exists (hs ++ [hdr]). split; [| split].
      + apply Forall2_app; [done |]. constructor; [| constructor].
        by rewrite Z.add_0_l in Hdisk.
      + rewrite zip_with_app by (by eapply Forall2_length). simpl.
        by rewrite Z.add_0_l.
      + rewrite !length_app. simpl. lia. }
  assert (∃ flip, (AVEDataset.split self ≠ "train" → flip = false)
                  ∧ frames = flip_all flip
                      (zip_with
                         (λ i hdr, ave_fit self (Decoded (ave_frame_path self video_id i) hdr))
                         idxs hdrs)) as (flip & Hflip & ->).
  { destruct (String.eqb_spec (AVEDataset.split self) "train") as [Htrain|Htrain].
    - apply bind_inv in Eflip as (u & g8 & _ & Eflip). inversion Eflip; subst.
      exists (Qgtb u (1 # 2)). split; [done | reflexivity].
    - inversion Eflip; subst. exists false. split; [done | reflexivity]. }
  exists video_id, n, idxs, flip, hdrs.
  assert (length (zip_with
                    (λ i hdr, ave_fit self (Decoded (ave_frame_path self video_id i) hdr))
                    idxs hdrs) = length idxs) as Hl.
  { rewrite length_zip_with. apply Forall2_length in Hhdrs. lia. }
  split; [done |]. split; [done |]. split; [done |]. split; [done |].
  split; [done |]. split; [done |]. split; [done |]. split; [| split].
  - unfold len in *. destruct flip; simpl; [rewrite length_fmap |]; lia.
  - unfold len in *. lia.
  - assert (Forall (λ f, size f = AVEDataset.image_shape self)
              (zip_with
                 (λ i hdr, ave_fit self (Decoded (ave_frame_path self video_id i) hdr))
                 idxs hdrs)) as Hz.
    { eapply Forall2_zip_with_Forall; [exact Hhdrs |]. intros i hdr _.
      apply size_ave_fit. }
    destruct flip; simpl; [| done]. apply Forall_fmap.
    eapply Forall_impl; [exact Hz |]. done.
Qed.

Lemma ave_item_frames_witness :
  let g := tape_of (replicate 24 0 ++ [7; 0; 2 ^ 53 - 1; 0; 3]) in
  let mask :=
    VFlipped (Converted (Resized (Decoded "masks/00007.png" (Header "RGB" 100 50)) 4 6) "L") in
  let frames :=
    [Decoded "ave/train/image/v/003.png" (Header "RGB" 6 4);
     Decoded "ave/train/image/v/004.png" (Header "RGB" 6 4)] in
  fst (@AVEDataset.__getitem__ (@spec_utils ave_files) ave_files ave_set 0 g)
    = Ok (frames, [mask; mask])
  ∧ len frames = Z.max 0 (AVEDataset.ref_count ave_set)
  ∧ len [mask; mask] = Z.max 0 (AVEDataset.ref_count ave_set)
  ∧ Forall (λ f, size f = AVEDataset.image_shape ave_set) frames.
Proof.
  intros g mask frames.
  assert (fst (@AVEDataset.__getitem__ (@spec_utils ave_files) ave_files ave_set 0 g)
          = Ok (frames, [mask; mask])) as E by (vm_compute; reflexivity).
  split; [exact E |].
  destruct (ave_item_frames (@spec_utils ave_files) ave_files ave_set 0 g
              frames [mask; mask] E)
    as (_ & _ & _ & _ & _ & _ & _ & _ & _ & _ & _ & _ & Hlf & Hlm & Hsz).
  split; [exact Hlf |]. split; [exact Hlm | exact Hsz].
Defined.

Lemma randrange_value a b g :
  a < b →
  random.randrange a b g = (Ok (a + tape g (cursor g) `mod` (b - a)), advance g).
Proof.
  intros Hab. unfold random.randrange.
  destruct (Z.ltb_spec 0 (b - a)); [| lia].
  unfold mbind, M_bind, bind, random.randbelow, next_raw, advance; simpl.
  destruct (Z.leb_spec (b - a) 0); [lia | reflexivity].
Qed.



(** ** Items of [Dataset] *)

Lemma getitem_nonneg_inv {A} (l : list A) (i : Z) g x g' :
  0 ≤ i → getitem l i g = (Ok x, g') → l !! Z.to_nat i = Some x.
Proof.
  intros Hi. unfold getitem. destruct (Z.ltb_spec i 0); [lia |].
  destruct (Z.ltb_spec i 0); [lia |].
  destruct (l !! Z.to_nat i) as [y|]; [| discriminate]. intros Eq. by inversion Eq.
Qed.

(** X7.  When [Dataset.load_item] returns, mask [j] of the item is the
    mask that [create_random_shape_with_random_motion] generated for the
    video position of the [j]-th sampled index: the masks are picked from
    one generated sequence of the video's length, in increasing order of
    the sampled indices.  Outside training every frame has the size
    [(w, h)] and there are as many frames as masks. *)
Theorem load_item_alignment (U : core_utils) (self : Dataset.t) (index : Z) (g : rng)
    (frames masks : list Image) :
  fst (Dataset.load_item self index g) = Ok (frames, masks) →
  ∃ (video_name : string) (n : Z) (all_masks : list Image) (idxs : list Z) (ga gb : rng),
    video_name ∈ Dataset.video_names self
    ∧ Dataset.video_dict self !! video_name = Some n
    ∧ create_random_shape_with_random_motion (Z.max 0 n) (Dataset.h self) (Dataset.w self) ga
      = (Ok all_masks, gb)
    ∧ increasing idxs ∧ within n idxs
    ∧ len idxs = Z.max 0 (Dataset.sample_length self)
    ∧ Forall2 (λ i m, all_masks !! Z.to_nat i = Some m) idxs masks
    ∧ (Dataset.split self ≠ "train" →
       len frames = len masks
       ∧ Forall (λ f, size f = (Dataset.w self, Dataset.h self)) frames).
Proof.
  intros E0. apply fst_ok_inv in E0 as [g' E]. unfold Dataset.load_item in E.
  apply bind_inv in E as (video_name & g1 & Eid & E).
  apply bind_inv in E as (n & g2 & En & E). cbv zeta in E.
  apply bind_inv in E as (all_masks & g3 & Egen & E).
  apply bind_inv in E as (idxs & g4 & Eidx & E).
  apply bind_inv in E as ([fs ms] & g5 & Eloop & E).
  apply bind_inv in E as (fs' & g6 & Eflip & E).
  inversion E; subst; clear E.
  apply getitem_inv in Eid as [Hid _]. apply dict_getitem_inv in En as [Hn _].
  assert (len ((λ i, zfill 5 (str i) +:+ ".jpg") <$> range n) = Z.max 0 n) as Hframes.
  { unfold len, range. rewrite length_fmap, length_seqZ. lia. }
  rewrite Hframes in Egen, Eidx.
  pose proof (get_ref_index_len _ _ _ _ _ Eidx) as Hlen.
  apply get_ref_index_returns in Eidx as [Hinc Hin].
  assert (within n idxs) as Hwithin.
  { eapply Forall_impl; [exact Hin |]. intros i Hi. simpl in Hi. lia. }
  apply (for_in_inv_prefix
           (λ done (s : list Image * list Image),
              Forall2 (λ i m, all_masks !! Z.to_nat i = Some m) done s.2
              ∧ length s.1 = length done
              ∧ Forall (λ f, size f = (Dataset.w self, Dataset.h self)) s.1))
    with (done := []) in Eloop.
  - simpl in Eloop. destruct Eloop as (Halign & Hfl & Hfs).
    exists video_name, n, all_masks, idxs, g2, g3.
    repeat (split; [done |]). intros Hsplit.
    destruct (String.eqb_spec (Dataset.split self) "train") as [|_]; [done |].
    inversion Eflip; subst. split; [| done].
    apply Forall2_length in Halign. unfold len. lia.
  - simpl. split; [constructor | split; [done | constructor]].
  - intros d [fs0 ms0] i ga [fs1 ms1] gb (Ha & Hl & Hs) Hi Eb. simpl in *.
    unfold within in Hin. rewrite Forall_forall in Hin. specialize (Hin i Hi). simpl in Hin.
    apply bind_inv in Eb as (member & gc & _ & Eb).
    apply bind_inv in Eb as (img & gd & _ & Eb).
    apply bind_inv in Eb as (m & ge & Em & Eb).
    inversion Eb; subst; clear Eb.
    apply getitem_nonneg_inv in Em; [| lia].
    split; [| split].
    + apply Forall2_app; [done |]. by constructor.
    + rewrite !length_app. simpl. lia.
    + apply Forall_app. split; [done |]. by constructor.
Qed.

Lemma load_item_alignment_witness :
  let g := tape_of [] in
  let item := fst (@Dataset.load_item (@spec_utils davis_files) davis_set 0 g) in
  let frames := match item with Ok (frames, _) => frames | Raise _ => [] end in
  let masks := match item with Ok (_, masks) => masks | Raise _ => [] end in
  item = Ok (frames, masks)
  ∧ Dataset.split davis_set ≠ "train"
  ∧ len masks = Z.max 0 (Dataset.sample_length davis_set)
  ∧ len frames = len masks
  ∧ Forall (λ f, size f = (Dataset.w davis_set, Dataset.h davis_set)) frames.
Proof.
  intros g item frames masks.
  assert (item = Ok (frames, masks)) as E by (vm_compute; reflexivity).
  assert (Dataset.split davis_set ≠ "train") as Hs by discriminate.
  split; [exact E |]. split; [exact Hs |].
  destruct (load_item_alignment (@spec_utils davis_files) davis_set 0 g frames masks E)
    as (_ & _ & ms & idxs & _ & _ & _ & _ & _ & _ & _ & Hlen & Halign & Hout).
  destruct (Hout Hs) as [Hl Hsz].
  split; [| split; [exact Hl | exact Hsz]].
  apply Forall2_length in Halign. unfold len in *. lia.
Defined.

(** X8.  [Dataset.__getitem__] passes a loaded item through; when the
    first attempt raises, an index outside [[-len, len)] ends in
    [IndexError] (the handler itself reads [video_names[index]] for its
    message, so no fallback happens), and an index inside the range ends
    in what [load_item(0)] gives from the generator state that the failed
    attempt left. *)
Theorem dataset_getitem_fallback (U : core_utils) (self : Dataset.t) (index : Z) (g : rng) :
  (∀ item g1, Dataset.load_item self index g = (Ok item, g1) →
     Dataset.__getitem__ self index g = (Ok item, g1))
  ∧ (index < - Dataset.__len__ self ∨ Dataset.__len__ self ≤ index →
     Dataset.__getitem__ self index g = (Raise IndexError, g))
  ∧ (- Dataset.__len__ self ≤ index < Dataset.__len__ self →
     ∀ e g1, Dataset.load_item self index g = (Raise e, g1) →
       Dataset.__getitem__ self index g = Dataset.load_item self 0 g1).
Proof.
  split; [| split].
  - intros item g1 E. unfold Dataset.__getitem__. by rewrite E.
  - intros Hi. unfold Dataset.__getitem__.
    assert (Dataset.load_item self index g = (Raise IndexError, g)) as ->.
    { unfold Dataset.load_item.
      by rewrite (bind_raise _ _ _ _ _ (getitem_out_of_range _ _ g Hi)). }
    by rewrite (bind_raise _ _ _ _ _ (getitem_out_of_range _ _ g Hi)).
  - intros Hi e g1 E. unfold Dataset.__getitem__. rewrite E.
    destruct (getitem_in_range (Dataset.video_names self) index g1 Hi) as (x & Ex & _).
    by rewrite (bind_ok _ _ _ _ _ Ex).
Qed.

Lemma dataset_getitem_fallback_witness :
  let g := tape_of [] in
  let U := @spec_utils davis_files in
  (Dataset.__len__ davis_set ≤ 2
   ∧ @Dataset.__getitem__ U davis_set 2 g = (Raise IndexError, g))
  ∧ (- Dataset.__len__ davis_set ≤ 1 < Dataset.__len__ davis_set
     ∧ @Dataset.load_item U davis_set 1 g
       = (Raise ValueError, snd (@Dataset.load_item U davis_set 1 g))
     ∧ @Dataset.__getitem__ U davis_set 1 g
       = @Dataset.load_item U davis_set 0 (snd (@Dataset.load_item U davis_set 1 g))).
Proof.
  intros g U. split.
  - assert (Dataset.__len__ davis_set ≤ 2) as Hi by (vm_compute; discriminate).
    split; [exact Hi |].
    exact (proj1 (proj2 (dataset_getitem_fallback U davis_set 2 g)) (or_intror Hi)).
  - assert (- Dataset.__len__ davis_set ≤ 1 < Dataset.__len__ davis_set) as Hi
      by (vm_compute; split; [discriminate | reflexivity]).
    assert (@Dataset.load_item U davis_set 1 g
            = (Raise ValueError, snd (@Dataset.load_item U davis_set 1 g))) as E
      by (vm_compute; reflexivity).
    split; [exact Hi |]. split; [exact E |].
    exact (proj2 (proj2 (dataset_getitem_fallback U davis_set 1 g)) Hi _ _ E).
Defined.

(** ** Construction of the datasets *)

Lemma od_empty_wf {V} : od_wf (@od_empty V).
Proof.
  split; [constructor |]. intros k. simpl. rewrite lookup_empty. split.
  - by intros ?%elem_of_nil.
  - by intros [? ?].
Qed.

Lemma od_set_wf {V} (d : odict V) k v : od_wf d → od_wf (od_set d k v).
Proof.
  intros [Hnd Hkeys]. unfold od_set. split; simpl.
  - destruct (od_map d !! k) eqn:E; [done |].
    apply NoDup_app. split; [done |]. split; [| apply NoDup_singleton].
    intros x Hx ->%list_elem_of_singleton. apply Hkeys in Hx as [? ?]. congruence.
  - intros j. destruct (decide (k = j)) as [->|Hne].
    + rewrite lookup_insert_eq. split; [by eauto |]. intros _.
      destruct (od_map d !! j) eqn:E.
      * apply Hkeys. by eauto.
      * apply elem_of_app. right. by left.
    + rewrite lookup_insert_ne by done. rewrite <- Hkeys.
      destruct (od_map d !! k); [done |]. rewrite elem_of_app, list_elem_of_singleton.
      split; [intros [? | ?]; [done | congruence] | by left].
Qed.

Lemma od_set_keys {V} (d : odict V) k v j :
  od_wf d → j ∈ od_keys (od_set d k v) ↔ j ∈ od_keys d ∨ j = k.
Proof.
  intros [_ Hkeys]. unfold od_set. simpl. destruct (od_map d !! k) eqn:E.
  - split; [by left |]. intros [? | ->]; [done |]. apply Hkeys. by eauto.
  - rewrite elem_of_app, list_elem_of_singleton. done.
Qed.

Lemma od_set_keys_fresh {V} (d : odict V) k v :
  od_wf d → k ∉ od_keys d → od_keys (od_set d k v) = od_keys d ++ [k].
Proof.
  intros [_ Hkeys] Hk. unfold od_set. simpl. destruct (od_map d !! k) eqn:E; [| done].
  exfalso. apply Hk, Hkeys. by eauto.
Qed.

Lemma os_listdir_inv (D : dirs) path g names g' :
  os_listdir path g = (Ok names, g') → listing path = Ok names ∧ g' = g.
Proof. unfold os_listdir. intros E. by inversion E. Qed.

(** What the counting loop of the two folder-based constructors keeps:
    after the entries [done], the dict is well formed, its keys are the
    entries seen, in the order seen when these are distinct, and each key
    holds the number of names in its directory. *)
Lemma count_loop_inv (D : dirs) (dir : string → string) (entries : list string)
    g (d : odict Z) g' :
  for_in entries (λ video_dict video_id,
    names ← os_listdir (dir video_id);
    mret (od_set video_dict video_id (len names))) od_empty g = (Ok d, g') →
  od_wf d
  ∧ (∀ k, k ∈ od_keys d ↔ k ∈ entries)
  ∧ (NoDup entries → od_keys d = entries)
  ∧ (∀ k, k ∈ entries →
       ∃ names, listing (dir k) = Ok names ∧ od_map d !! k = Some (len names)).
Proof.
  intros E.
  apply (for_in_inv_prefix
           (λ done (d : odict Z),
              od_wf d
              ∧ (∀ k, k ∈ od_keys d ↔ k ∈ done)
              ∧ (NoDup done → od_keys d = done)
              ∧ (∀ k, k ∈ done →
                   ∃ names, listing (dir k) = Ok names ∧ od_map d !! k = Some (len names))))
    with (done := []) in E.
  - exact E.
  - split; [apply od_empty_wf |]. split; [done |]. split; [done |].
    by intros k ?%elem_of_nil.
  - intros done s x g1 s' g2 (Hwf & Hkeys & Hord & Hval) _ Eb.
    apply bind_inv in Eb as (names & g3 & Enames & Eb). inversion Eb; subst; clear Eb.
    apply os_listdir_inv in Enames as [Hnames _].
    split; [by apply od_set_wf |]. split; [| split].
    + intros k. rewrite od_set_keys by done. rewrite elem_of_app, list_elem_of_singleton.
      by rewrite Hkeys.
    + intros [Hnd [Hx _]]%NoDup_app.
      rewrite od_set_keys_fresh; [by rewrite Hord | done |].
      rewrite Hkeys. intros Hin. apply (Hx x Hin). by left.
    + intros k [Hk | ->%list_elem_of_singleton]%elem_of_app.
      * destruct (decide (x = k)) as [->|Hne].
        -- exists names. split; [done |]. simpl. by rewrite lookup_insert_eq.
        -- destruct (Hval k Hk) as (ns & Hns & Hlk). exists ns. split; [done |].
           simpl. by rewrite lookup_insert_ne.
      * exists names. split; [done |]. simpl. by rewrite lookup_insert_eq.
Qed.

Lemma sorted_perm (l : list string) : sorted l ≡ₚ l.
Proof. apply merge_sort_Permutation. Qed.

(** X9.  A [MUSICDataset] that [__init__] builds: its ids are exactly
    the entries of [root_dir/png], without repetition and in ascending
    order; every id is a key of [video_dict], and its value is the number
    of names in the directory [root_dir/png/id]; so [__len__] counts the
    distinct entries, and no id of the dataset raises [KeyError]. *)
Theorem music_init_invariants (D : dirs) (dataset_args : MUSICDataset.args)
    (split : string) (g : rng) (self : MUSICDataset.t) (g' : rng) :
  MUSICDataset.__init__ dataset_args split g = (Ok self, g') →
  ∃ entries,
    listing (MUSICDataset.arg_root_dir dataset_args +:+ "/png") = Ok entries
    ∧ (∀ id, id ∈ MUSICDataset.video_ids self ↔ id ∈ entries)
    ∧ NoDup (MUSICDataset.video_ids self)
    ∧ StronglySorted String.le (MUSICDataset.video_ids self)
    ∧ (NoDup entries → MUSICDataset.__len__ self = len entries)
    ∧ (∀ id, id ∈ MUSICDataset.video_ids self →
         ∃ names,
           listing (MUSICDataset.arg_root_dir dataset_args +:+ "/png/" +:+ id) = Ok names
           ∧ MUSICDataset.video_dict self !! id = Some (len names)).
Proof.
  intros E. unfold MUSICDataset.__init__ in E. cbv zeta in E.
  apply bind_inv in E as (entries & g1 & Eentries & E).
  apply bind_inv in E as (d & g2 & Eloop & E).
  inversion E; subst; clear E. simpl.
  apply os_listdir_inv in Eentries as [Hentries _].
  apply (count_loop_inv D
           (λ id, MUSICDataset.arg_root_dir dataset_args +:+ "/png/" +:+ id)) in Eloop
    as ([Hnd _] & Hkeys & Hord & Hval).
  exists entries. split; [done |]. split; [| split; [| split; [| split]]].
  - intros id. by rewrite sorted_perm, Hkeys.
  - by rewrite sorted_perm.
  - apply (StronglySorted_merge_sort String.le).
  - intros Hnde. unfold MUSICDataset.__len__, len. simpl.
    by rewrite (Permutation_length (sorted_perm _)), Hord.
  - intros id Hid. apply Hval, Hkeys. by rewrite <- (sorted_perm (od_keys d)).
Qed.

Lemma music_init_invariants_witness :
  let g := tape_of [] in
  let self :=
    {| MUSICDataset.root_dir := "music";
       MUSICDataset.ref_frames := 3;
       MUSICDataset.image_width := 256;
       MUSICDataset.image_height := 256;
       MUSICDataset.video_dict := {[ "vidA" := 3; "vidB" := 1 ]};
       MUSICDataset.video_ids := ["vidA"; "vidB"] |} in
  @MUSICDataset.__init__ music_dirs music_args "train" g = (Ok self, g)
  ∧ ∃ entries,
      @listing music_dirs (MUSICDataset.arg_root_dir music_args +:+ "/png") = Ok entries
      ∧ (∀ id, id ∈ MUSICDataset.video_ids self ↔ id ∈ entries)
      ∧ NoDup (MUSICDataset.video_ids self)
      ∧ StronglySorted String.le (MUSICDataset.video_ids self)
      ∧ (NoDup entries → MUSICDataset.__len__ self = len entries)
      ∧ (∀ id, id ∈ MUSICDataset.video_ids self →
           ∃ names,
             @listing music_dirs (MUSICDataset.arg_root_dir music_args +:+ "/png/" +:+ id)
               = Ok names
             ∧ MUSICDataset.video_dict self !! id = Some (len names)).
Proof.
  intros g self.
  assert (@MUSICDataset.__init__ music_dirs music_args "train" g = (Ok self, g)) as E
    by (vm_compute; reflexivity).
  split; [exact E |].
  exact (music_init_invariants music_dirs music_args "train" g self g E).
Defined.

Lemma count_loop_raises (D : dirs) (dir : string → string) (entries : list string) :
  ∀ (acc : odict Z) g id e,
    id ∈ entries → listing (dir id) = Raise e →
    ∃ e', for_in entries (λ video_dict video_id,
            names ← os_listdir (dir video_id);
            mret (od_set video_dict video_id (len names))) acc g = (Raise e', g).
Proof.
  induction entries as [|x entries IH]; intros acc g id e Hid He.
  - by apply elem_of_nil in Hid.
  - simpl. destruct (listing (dir x)) as [names|e0] eqn:Ex.
    + apply elem_of_cons in Hid as [-> | Hid]; [congruence |].
      assert ((names ← os_listdir (dir x); mret (od_set acc x (len names))) g
              = (Ok (od_set acc x (len names)), g)) as E1.
      { assert (os_listdir (dir x) g = (Ok names, g)) as El
          by (unfold os_listdir; by rewrite Ex).
        by rewrite (bind_ok _ _ _ _ _ El). }
      rewrite (bind_ok _ _ _ _ _ E1). by eapply IH.
    + exists e0. apply bind_raise, bind_raise. unfold os_listdir. by rewrite Ex.
Qed.

(** X10.  A [AVEDataset] that [__init__] builds: the split is one of
    train, val, test; the ids are exactly the entries of
    [data_root/split/image], without repetition and, when the listing has
    no repetition, in the order of the listing; every id is a key of
    [video_dict] whose value is the number of names in the directory of
    that video. *)
Theorem ave_init_invariants (D : dirs) (args_ : AVEDataset.args)
    (split : string) (g : rng) (self : AVEDataset.t) (g' : rng) :
  AVEDataset.__init__ args_ split g = (Ok self, g') →
  split ∈ ["train"; "val"; "test"]
  ∧ AVEDataset.split self = split
  ∧ ∃ entries,
      listing (AVEDataset.arg_data_root args_ +:+ "/" +:+ split +:+ "/image") = Ok entries
      ∧ (∀ id, id ∈ AVEDataset.video_ids self ↔ id ∈ entries)
      ∧ NoDup (AVEDataset.video_ids self)
      ∧ (NoDup entries → AVEDataset.video_ids self = entries)
      ∧ (∀ id, id ∈ AVEDataset.video_ids self →
           ∃ names,
             listing (AVEDataset.arg_data_root args_ +:+ "/" +:+ split +:+ "/image/" +:+ id)
               = Ok names
             ∧ AVEDataset.video_dict self !! id = Some (len names)).
Proof.
  intros E. unfold AVEDataset.__init__ in E.
  apply bind_inv in E as (u & g0 & Eassert & E). cbv zeta in E.
  apply bind_inv in E as (entries & g1 & Eentries & E).
  apply bind_inv in E as (d & g2 & Eloop & E).
  inversion E; subst; clear E. simpl.
  apply assert_inv in Eassert as [Hsplit%bool_decide_eq_true _].
  apply os_listdir_inv in Eentries as [Hentries _].
  apply (count_loop_inv D
           (λ id, AVEDataset.arg_data_root args_ +:+ "/" +:+ split +:+ "/image/" +:+ id))
    in Eloop as ([Hnd _] & Hkeys & Hord & Hval).
  split; [done |]. split; [done |]. exists entries.
  split; [done |]. split; [done |]. split; [done |]. split; [done |].
  intros id Hid. by apply Hval, Hkeys.
Qed.

Lemma ave_init_invariants_witness :
  let g := tape_of [] in
  let self :=
    {| AVEDataset.data_root := "ave";
       AVEDataset.mask_dir := "masks";
       AVEDataset.split := "train";
       AVEDataset.ref_count := 2;
       AVEDataset.image_width := 6;
       AVEDataset.image_height := 4;
       AVEDataset.video_dict := {[ "v" := 2; "w" := 1 ]};
       AVEDataset.video_ids := ["w"; "v"] |} in
  @AVEDataset.__init__ ave_dirs ave_args "train" g = (Ok self, g)
  ∧ AVEDataset.video_ids self = ["w"; "v"]
  ∧ ∀ id, id ∈ AVEDataset.video_ids self →
      ∃ names,
        @listing ave_dirs (AVEDataset.arg_data_root ave_args +:+ "/" +:+ "train"
                             +:+ "/image/" +:+ id) = Ok names
        ∧ AVEDataset.video_dict self !! id = Some (len names).
Proof.
  intros g self.
  assert (@AVEDataset.__init__ ave_dirs ave_args "train" g = (Ok self, g)) as E
    by (vm_compute; reflexivity).
  split; [exact E |]. split; [reflexivity |].
  destruct (ave_init_invariants ave_dirs ave_args "train" g self g E)
    as (_ & _ & entries & _ & _ & _ & _ & Hval).
  exact Hval.
Defined.

(** X11.  How [AVEDataset.__init__] fails: a split other than train,
    val, test raises [AssertionError] before any directory is read; and
    when an entry of [data_root/split/image] cannot be listed (a plain
    file among the video folders), the constructor raises instead of
    building a dataset. *)
Theorem ave_init_fails (D : dirs) (args_ : AVEDataset.args) (split : string) (g : rng) :
  (split ∉ ["train"; "val"; "test"] →
   AVEDataset.__init__ args_ split g = (Raise AssertionError, g))
  ∧ (∀ entries id e,
       split ∈ ["train"; "val"; "test"] →
       listing (AVEDataset.arg_data_root args_ +:+ "/" +:+ split +:+ "/image") = Ok entries →
       id ∈ entries →
       listing (AVEDataset.arg_data_root args_ +:+ "/" +:+ split +:+ "/image/" +:+ id)
         = Raise e →
       ∃ e', AVEDataset.__init__ args_ split g = (Raise e', g)).
Proof.
  split.
  - intros Hsplit. unfold AVEDataset.__init__.
    rewrite bool_decide_eq_false_2 by done. reflexivity.
  - intros entries id e Hsplit Hentries Hid He. unfold AVEDataset.__init__.
    rewrite bool_decide_eq_true_2 by done.
    change (assert true) with (mret tt : M unit).
    unfold mbind at 1, M_bind at 1, bind at 1. simpl. cbv zeta.
    assert (os_listdir (AVEDataset.arg_data_root args_ +:+ "/" +:+ split +:+ "/image") g
            = (Ok entries, g)) as El.
    { unfold os_listdir. by rewrite Hentries. }
    rewrite (bind_ok _ _ _ _ _ El).
    destruct (count_loop_raises D
                (λ id, AVEDataset.arg_data_root args_ +:+ "/" +:+ split +:+ "/image/" +:+ id)
                entries od_empty g id e Hid He) as [e' Eloop].
    exists e'. by rewrite (bind_raise _ _ _ _ _ Eloop).
Qed.

Lemma ave_init_fails_witness :
  let g := tape_of [] in
  (("dev" ∉ ["train"; "val"; "test"])
   ∧ @AVEDataset.__init__ ave_dirs ave_args "dev" g = (Raise AssertionError, g))
  ∧ ("val" ∈ ["train"; "val"; "test"]
     ∧ @listing ave_dirs "ave/val/image" = Ok ["v"; "notes.txt"]
     ∧ @listing ave_dirs "ave/val/image/notes.txt" = Raise FileNotFoundError
     ∧ ∃ e', @AVEDataset.__init__ ave_dirs ave_args "val" g = (Raise e', g)).
Proof.
  intros g. split.
  - assert ("dev" ∉ ["train"; "val"; "test"]) as Hd.
    { intros H. apply (bool_decide_eq_true_2 _) in H. vm_compute in H. discriminate. }
    split; [exact Hd |].
    exact (proj1 (ave_init_fails ave_dirs ave_args "dev" g) Hd).
  - assert ("val" ∈ ["train"; "val"; "test"]) as Hv by (right; left).
    assert (@listing ave_dirs "ave/val/image" = Ok ["v"; "notes.txt"]) as Hl by reflexivity.
    assert (@listing ave_dirs "ave/val/image/notes.txt" = Raise FileNotFoundError) as Hn
      by reflexivity.
    split; [exact Hv |]. split; [exact Hl |]. split; [exact Hn |].
    exact (proj2 (ave_init_fails ave_dirs ave_args "val" g)
             ["v"; "notes.txt"] "notes.txt" FileNotFoundError Hv Hl
             ltac:(right; left) Hn).
Defined.

Lemma json_fold_inv (members : list (string * Z)) (d : odict Z) :
  d = foldl (λ d kv, od_set d kv.1 kv.2) od_empty members →
  od_wf d
  ∧ (∀ k, k ∈ od_keys d ↔ k ∈ members.*1)
  ∧ (∀ k v, od_map d !! k = Some v → (k, v) ∈ members)
  ∧ (NoDup members.*1 → od_keys d = members.*1).
Proof.
  revert d. induction members as [|[k v] members IH] using rev_ind; intros d ->.
  - split; [apply od_empty_wf |]. split; [done |]. split; [| done].
    intros k v. simpl. by rewrite lookup_empty.
  - rewrite foldl_app. cbn [foldl fst snd].
    destruct (IH _ eq_refl) as (Hwf & Hkeys & Hval & Hord).
    set (d0 := foldl (λ d kv, od_set d kv.1 kv.2) od_empty members) in *.
    split; [by apply od_set_wf |]. split; [| split].
    + intros j. rewrite od_set_keys by done. rewrite fmap_app, elem_of_app.
      cbn [fmap list_fmap fst]. rewrite list_elem_of_singleton. by rewrite Hkeys.
    + intros j w. unfold od_set. cbn [od_map]. destruct (decide (k = j)) as [->|Hne].
      * rewrite lookup_insert_eq. intros [= ->]. apply elem_of_app. right. by left.
      * rewrite lookup_insert_ne by done. intros Hj. apply elem_of_app. left. by apply Hval.
    + rewrite fmap_app. cbn [fmap list_fmap fst]. intros [Hnd [Hx _]]%NoDup_app.
      rewrite od_set_keys_fresh; [by rewrite Hord | done |].
      rewrite Hkeys. intros Hin. apply (Hx k Hin). by left.
Qed.

(** X12.  A [Dataset] that [__init__] builds from the manifest
    [data_root/name/split.json]: its names are distinct keys of the
    manifest, each a key of [video_dict] whose value is a value the
    manifest gives for it; when debugging or outside training there are
    at most 100 names (the first 100 keys, for a manifest without a
    repeated key); in training without debugging the names are all the
    keys. *)
Theorem dataset_init_invariants (Mf : manifests) (args_ : Dataset.args)
    (split : string) (debug : bool) (g : rng) (self : Dataset.t) (g' : rng) :
  Dataset.__init__ args_ split debug g = (Ok self, g') →
  ∃ members,
    manifest (os_path_join (Dataset.arg_data_root args_) (Dataset.arg_name args_)
                (split +:+ ".json")) = Ok members
    ∧ NoDup (Dataset.video_names self)
    ∧ (∀ name, name ∈ Dataset.video_names self →
         ∃ v, Dataset.video_dict self !! name = Some v ∧ (name, v) ∈ members)
    ∧ (debug = true ∨ split ≠ "train" → Dataset.__len__ self ≤ 100)
    ∧ (debug = false → split = "train" →
       ∀ name, name ∈ Dataset.video_names self ↔ name ∈ members.*1)
    ∧ (NoDup members.*1 →
       Dataset.video_names self
       = if (debug || negb (String.eqb split "train"))%bool
         then take 100 members.*1 else members.*1).
Proof.
  intros E. unfold Dataset.__init__ in E.
  apply bind_inv in E as (d & g1 & Eload & E). cbv zeta in E.
  inversion E; subst; clear E. simpl.
  unfold json_load in Eload.
  destruct (manifest _) as [members|e] eqn:Em; [| discriminate].
  inversion Eload; subst; clear Eload.
  set (d := foldl (λ d kv, od_set d kv.1 kv.2) od_empty members) in *.
  destruct (json_fold_inv members d eq_refl) as ([Hnd Hdom] & Hkeys & Hval & Hord).
  exists members. split; [done |].
  assert (∀ name,
            name ∈ (if (debug || negb (String.eqb split "train"))%bool
                    then take 100 (od_keys d) else od_keys d) → name ∈ od_keys d) as Hsub.
  { intros name. destruct (_ || _)%bool; [| done]. apply (subseteq_take 100). }
  split; [| split; [| split; [| split]]].
  - destruct (_ || _)%bool; [| done]. eapply sublist_NoDup; [exact Hnd | apply sublist_take].
  - intros name Hname%Hsub. apply Hdom in Hname as [v Hv]. exists v. split; [done |].
    by apply Hval.
  - intros Hcut. unfold Dataset.__len__, len. simpl.
    assert ((debug || negb (String.eqb split "train"))%bool = true) as ->.
    { destruct Hcut as [-> | Hne]; [done |].
      destruct (String.eqb_spec split "train"); [done |]. by rewrite orb_true_r. }
    rewrite length_take. lia.
  - intros -> ->. simpl. intros name. by rewrite Hkeys.
  - intros Hnd'. by rewrite (Hord Hnd').
Qed.

Lemma dataset_init_invariants_witness :
  let g := tape_of [] in
  @Dataset.__init__ davis_manifests davis_args "val" false g = (Ok davis_set, g)
  ∧ ("val" ≠ "train" → Dataset.__len__ davis_set ≤ 100)
  ∧ ∀ name, name ∈ Dataset.video_names davis_set →
      ∃ v, Dataset.video_dict davis_set !! name = Some v
           ∧ (name, v) ∈ [("bear", 5); ("cows", 1)].
Proof.
  intros g.
  assert (@Dataset.__init__ davis_manifests davis_args "val" false g = (Ok davis_set, g))
    as E by (vm_compute; reflexivity).
  split; [exact E |].
  destruct (dataset_init_invariants davis_manifests davis_args "val" false g davis_set g E)
    as (members & Hm & _ & Hval & Hcut & _).
  assert (members = [("bear", 5); ("cows", 1)]) as -> by (vm_compute in Hm; congruence).
  split; [| exact Hval].
  intros Hne. apply Hcut. by right.
Defined.

(** X14.  Constructor and item access together: in a [MUSICDataset]
    built by [__init__], a video whose directory holds fewer names than
    [sample_length] makes every [__getitem__] on it raise [ValueError]. *)
Theorem music_built_short_video (D : dirs) (U : core_utils) (F : files)
    (dataset_args : MUSICDataset.args) (split : string) (g0 g1 : rng)
    (self : MUSICDataset.t) (index : Z) (g : rng) (video_id : string)
    (names : list string) :
  MUSICDataset.__init__ dataset_args split g0 = (Ok self, g1) →
  getitem (MUSICDataset.video_ids self) index g = (Ok video_id, g) →
  listing (MUSICDataset.arg_root_dir dataset_args +:+ "/png/" +:+ video_id) = Ok names →
  len names < MUSICDataset.arg_sample_length dataset_args →
  MUSICDataset.__getitem__ self index g = (Raise ValueError, advance g).
Proof.
  intros Einit Eid Hnames Hshort.
  pose proof (getitem_inv _ _ _ _ _ Eid) as [Hid _].
  unfold MUSICDataset.__init__ in Einit. cbv zeta in Einit.
  apply bind_inv in Einit as (entries & g2 & _ & Einit).
  apply bind_inv in Einit as (d & g3 & Eloop & Einit).
  inversion Einit; subst; clear Einit. simpl in *.
  apply (count_loop_inv D
           (λ id, MUSICDataset.arg_root_dir dataset_args +:+ "/png/" +:+ id)) in Eloop
    as (_ & Hkeys & _ & Hval).
  destruct (Hval video_id) as (names' & Hn' & Hlk).
  { apply Hkeys. by rewrite <- (sorted_perm (od_keys d)). }
  simpl in Hn'. rewrite Hnames in Hn'. inversion Hn'; subst names'.
  eapply music_short_video; [exact Eid | exact Hlk |]. simpl. unfold len in *. lia.
Qed.

Lemma music_built_short_video_witness :
  let g := tape_of [] in
  let self :=
    {| MUSICDataset.root_dir := "music";
       MUSICDataset.ref_frames := 3;
       MUSICDataset.image_width := 256;
       MUSICDataset.image_height := 256;
       MUSICDataset.video_dict := {[ "vidA" := 3; "vidB" := 1 ]};
       MUSICDataset.video_ids := ["vidA"; "vidB"] |} in
  @MUSICDataset.__init__ music_dirs music_args "train" g = (Ok self, g)
  ∧ getitem (MUSICDataset.video_ids self) 1 g = (Ok "vidB", g)
  ∧ @listing music_dirs "music/png/vidB" = Ok ["00001.png"]
  ∧ len ["00001.png"] < MUSICDataset.arg_sample_length music_args
  ∧ @MUSICDataset.__getitem__ (@spec_utils music_files) music_files self 1 g
    = (Raise ValueError, advance g).
Proof.
  intros g self.
  assert (@MUSICDataset.__init__ music_dirs music_args "train" g = (Ok self, g)) as E
    by (vm_compute; reflexivity).
  assert (getitem (MUSICDataset.video_ids self) 1 g = (Ok "vidB", g)) as Eid by reflexivity.
  assert (@listing music_dirs "music/png/vidB" = Ok ["00001.png"]) as Hl by reflexivity.
  assert (len ["00001.png"] < MUSICDataset.arg_sample_length music_args) as Hs
    by (vm_compute; reflexivity).
  split; [exact E |]. split; [exact Eid |]. split; [exact Hl |]. split; [exact Hs |].
  exact (music_built_short_video music_dirs (@spec_utils music_files) music_files
           music_args "train" g g self 1 g "vidB" ["00001.png"] E Eid Hl Hs).
Defined.
